(** * Team membership reconciliation of the Grafana provider

    A shallow embedding of [grafana/resource_team.go]: the membership
    differ ([collectTeamUsers], [teamChanges]), the identity resolver
    ([addIdsToTeamChanges]), the change applier ([applyTeamChanges]) and
    their composition ([UpdateTeamMembers]).

    Conventions of the embedding:
    - [int64] identifiers are [Z]; the code never does arithmetic on them.
    - a Go [error] is the string its [Error()] method returns, and a
      possibly-nil error is an [option];
    - a Go [map[string]T] is a [gmap string T]; a nil map and a nil slice
      are identified with the empty ones (Go reads, ranges and takes the
      length of both alike);
    - the order in which Go ranges over a map is unspecified: it is a
      parameter [range] of the development, constrained only to enumerate
      the entries of the map once each;
    - the remote Grafana client is a record of state transformers over an
      abstract world; every call and its answer is appended to a trace. *)

From stdpp Require Import gmap strings list fin_maps.
From stdpp Require Import pretty.

Open Scope Z_scope.
Open Scope string_scope.
Open Scope list_scope.

(** ** Data model *)

Definition error := string.

Record TeamUser := { Id : Z; Email : string }.

(** Modelled from the spec: [ChangeType] and its constants are declared in
    a sibling file of the package; the spec has it as the enumeration of
    [Add], [Remove] and [Update], the three constants this file uses. *)
Inductive ChangeType := Add | Update | Remove.

Record UserTeamChange := { Type_ : ChangeType; User : TeamUser }.

Global Instance TeamUser_eq_dec : EqDecision TeamUser.
Proof. solve_decision. Defined.
Global Instance ChangeType_eq_dec : EqDecision ChangeType.
Proof. solve_decision. Defined.
Global Instance UserTeamChange_eq_dec : EqDecision UserTeamChange.
Proof. solve_decision. Defined.

(** What the code reads of a [schema.ResourceData]: the resource id, the
    old and new value of the ["users"] attribute ([d.GetChange]) and the
    ["create_users"] flag. *)
Record ResourceData := {
  d_Id : string;
  users_state : list string;
  users_config : list string;
  create_users : bool }.

Definition GetChange_users (d : ResourceData) : list string * list string :=
  (users_state d, users_config d).

(** ** collectTeamUsers *)

Definition duplicate_user_error (email : string) : error :=
  "Error: User '" +:+ email +:+ "' cannot be specified multiple times.".

(** One of the two loops of [collectTeamUsers]: [inr] is the early return. *)
Fixpoint collect_loop (us : list string) (users : gmap string TeamUser)
  : gmap string TeamUser + error :=
  match us with
  | [] => inl users
  | email :: us' =>
      match users !! email with
      | Some _ => inr (duplicate_user_error email)
      | None => collect_loop us' (<[email := {| Id := 0; Email := email |}]> users)
      end
  end.

Definition collectTeamUsers (d : ResourceData)
  : gmap string TeamUser * gmap string TeamUser * option error :=
  let '(state, config) := GetChange_users d in
  match collect_loop state ∅ with
  | inr err => (∅, ∅, Some err)
  | inl stateUsers =>
      match collect_loop config ∅ with
      | inr err => (∅, ∅, Some err)
      | inl configUsers => (stateUsers, configUsers, None)
      end
  end.

(** ** The remote client *)

Module gapi.

(** The fields of [gapi.User] the code reads. *)
Record User := { Id : Z; Email : string }.

(** The methods of the [gapi] client the code calls, as transformers of the
    state [W] of the remote service. *)
Record Client (W : Type) := {
  Users : W → (list User * option error) * W;
  AddTeamMember : Z → Z → W → option error * W;
  RemoveMemberFromTeam : Z → Z → W → option error * W }.

Global Arguments Users {W} _ _.
Global Arguments AddTeamMember {W} _ _ _ _.
Global Arguments RemoveMemberFromTeam {W} _ _ _ _.

End gapi.

(** A call made on the remote service, with its arguments and its answer. *)
Inductive Event :=
| CallUsers (gUsers : list gapi.User) (err : option error)
| CallCreateUser (email : string) (id : Z) (err : option error)
| CallAddTeamMember (teamId userId : Z) (err : option error)
| CallRemoveMemberFromTeam (teamId userId : Z) (err : option error).

Global Instance gapi_User_eq_dec : EqDecision gapi.User.
Proof. solve_decision. Defined.
Global Instance Event_eq_dec : EqDecision Event.
Proof. solve_decision. Defined.

(** The state the code runs in: the remote service and the calls made so far. *)
Record Remote (W : Type) := { world : W; trace : list Event }.
Global Arguments world {W} _.
Global Arguments trace {W} _.

Definition M (W A : Type) : Type := Remote W → A * Remote W.

Definition ret {W A} (a : A) : M W A := λ s, (a, s).
Definition bind {W A B} (m : M W A) (k : A → M W B) : M W B :=
  λ s, let '(a, s') := m s in k a s'.

Declare Scope remote_scope.
Delimit Scope remote_scope with remote.
Notation "'let*' p := m 'in' k" := (bind m (λ x, match x with p => k end))
  (at level 10, p pattern, m at level 100, k at level 200) : remote_scope.

(** The locals of [addIdsToTeamChanges] that hold slices: the parameter
    [changes], whose backing array is the caller's, and [output]. *)
Record Frame := { fr_changes : list UserTeamChange; fr_output : list UserTeamChange }.

Definition unknown_user_error (email : string) : error :=
  "Error adding user " +:+ email +:+ ". User does not exist in Grafana.".

(** [change.User.Id = id] *)
Definition set_User_Id (change : UserTeamChange) (id : Z) : UserTeamChange :=
  {| Type_ := Type_ change; User := {| Id := id; Email := Email (User change) |} |}.

Section Program.

(** The enumeration Go's [range] makes of a map. *)
Variable range : gmap string TeamUser → list (string * TeamUser).

(** [strconv.ParseInt(s, 10, 64)] with its error dropped, as in
    [teamId, _ := strconv.ParseInt(d.Id(), 10, 64)]. *)
Variable ParseInt : string → Z.

Context {W : Type}.
(** The [gapi] client held in [meta]. *)
Variable client : gapi.Client W.
(** [createUser(meta, email)], a function of a sibling file of the
    package: it answers with the id of the user it made, or an error. *)
Variable createUser : string → W → (Z * option error) * W.

Local Open Scope remote_scope.

(** *** teamChanges *)

Definition teamChanges (stateUsers configUsers : gmap string TeamUser)
  : list UserTeamChange :=
  let changes : list UserTeamChange := [] in
  let changes :=
    foldl (λ changes '(_, user),
             match stateUsers !! Email user with
             | None => changes ++ [{| Type_ := Add; User := user |}]
             | Some _ => changes
             end) changes (range configUsers) in
  let changes :=
    foldl (λ changes '(_, user),
             match configUsers !! Email user with
             | None => changes ++ [{| Type_ := Remove; User := user |}]
             | Some _ => changes
             end) changes (range stateUsers) in
  changes.

(** *** Calls on the remote service *)

Definition call_Users : M W (list gapi.User * option error) :=
  λ s, let '((gUsers, err), w) := gapi.Users client (world s) in
       ((gUsers, err), {| world := w; trace := trace s ++ [CallUsers gUsers err] |}).

Definition call_createUser (email : string) : M W (Z * option error) :=
  λ s, let '((id, err), w) := createUser email (world s) in
       ((id, err), {| world := w; trace := trace s ++ [CallCreateUser email id err] |}).

Definition call_AddTeamMember (teamId userId : Z) : M W (option error) :=
  λ s, let '(err, w) := gapi.AddTeamMember client teamId userId (world s) in
       (err, {| world := w; trace := trace s ++ [CallAddTeamMember teamId userId err] |}).

Definition call_RemoveMemberFromTeam (teamId userId : Z) : M W (option error) :=
  λ s, let '(err, w) := gapi.RemoveMemberFromTeam client teamId userId (world s) in
       (err, {| world := w;
                trace := trace s ++ [CallRemoveMemberFromTeam teamId userId err] |}).

(** *** addIdsToTeamChanges *)

(** [for _, u := range gUsers { gUserMap[u.Email] = u.Id }] *)
Definition build_gUserMap (gUsers : list gapi.User) : gmap string Z :=
  foldl (λ gUserMap u, <[gapi.Email u := gapi.Id u]> gUserMap) ∅ gUsers.

(** [for _, change := range changes]: the indices still to visit are
    [idxs]; the loop variable [change] is a copy of [changes[i]]. An error
    in the result is an early return. *)
Fixpoint addIds_range (gUserMap : gmap string Z) (create : bool)
    (idxs : list nat) (fr : Frame) : M W (Frame * option error) :=
  match idxs with
  | [] => ret (fr, None)
  | i :: idxs' =>
      match fr_changes fr !! i with
      | None => ret (fr, None)
      | Some change =>
          let '(id, ok) := match gUserMap !! Email (User change) with
                           | Some id => (id, true)
                           | None => (0, false)
                           end in
          if negb ok && negb create then
            ret (fr, Some (unknown_user_error (Email (User change))))
          else
            let* (id, err) := (if negb ok && create
                               then call_createUser (Email (User change))
                               else ret (id, None)) in
            match err with
            | Some e => ret (fr, Some e)
            | None =>
                let change := set_User_Id change id in
                addIds_range gUserMap create idxs'
                  {| fr_changes := fr_changes fr;
                     fr_output := fr_output fr ++ [change] |}
            end
      end
  end.

(** The body of [addIdsToTeamChanges], with the slices it leaves behind. *)
Definition addIdsToTeamChanges_frame (d : ResourceData)
    (changes : list UserTeamChange) : M W (Frame * option error) :=
  let fr := {| fr_changes := changes; fr_output := [] |} in
  let* (gUsers, err) := call_Users in
  match err with
  | Some e => ret (fr, Some e)
  | None =>
      let gUserMap := build_gUserMap gUsers in
      let create := create_users d in
      addIds_range gUserMap create (seq 0 (length changes)) fr
  end.

(** [return nil, err] on the error paths, [return output, nil] at the end. *)
Definition addIdsToTeamChanges (d : ResourceData)
    (changes : list UserTeamChange) : M W (list UserTeamChange * option error) :=
  let* (fr, err) := addIdsToTeamChanges_frame d changes in
  match err with
  | Some e => ret ([], Some e)
  | None => ret (fr_output fr, None)
  end.

(** *** applyTeamChanges *)

(** Each of the three cases of the [switch] assigns [err], so the value
    [err] had in the previous iteration is never read. *)
Fixpoint applyTeamChanges (teamId : Z) (changes : list UserTeamChange)
  : M W (option error) :=
  match changes with
  | [] => ret None
  | change :: changes' =>
      let u := User change in
      let* err := match Type_ change with
                  | Add | Update => call_AddTeamMember teamId (Id u)
                  | Remove => call_RemoveMemberFromTeam teamId (Id u)
                  end in
      match err with
      | Some e =>
          if bool_decide (e ≠ "409 Conflict") then ret (Some e)
          else applyTeamChanges teamId changes'
      | None => applyTeamChanges teamId changes'
      end
  end.

(** *** UpdateTeamMembers *)

Definition UpdateTeamMembers (d : ResourceData) : M W (option error) :=
  let '(stateUsers, configUsers, err) := collectTeamUsers d in
  match err with
  | Some e => ret (Some e)
  | None =>
      let changes := teamChanges stateUsers configUsers in
      let teamId := ParseInt (d_Id d) in
      let* (changes, err) := addIdsToTeamChanges d changes in
      match err with
      | Some e => ret (Some e)
      | None => applyTeamChanges teamId changes
      end
  end.

End Program.

Global Arguments teamChanges _ _ _ : simpl never.

(** ** A reference remote service

    A small directory with teams, to run the code on: [Users] lists the
    directory, [createUser] makes a user while [quota] lasts,
    [AddTeamMember] answers [409 Conflict] for a member and [404 Not Found]
    for a user that does not exist, [RemoveMemberFromTeam] answers
    [404 Not Found] for a user that is not a member. *)
Module Sim.

Record World := {
  users : list gapi.User;
  members : list (Z * Z);
  next_id : Z;
  quota : nat }.

Definition Users (w : World) : (list gapi.User * option error) * World :=
  ((users w, None), w).

Definition createUser (email : string) (w : World) : (Z * option error) * World :=
  match quota w with
  | O => ((0, Some "403 Forbidden"), w)
  | S q => ((next_id w, None),
            {| users := users w ++ [{| gapi.Id := next_id w; gapi.Email := email |}];
               members := members w; next_id := next_id w + 1; quota := q |})
  end.

Definition AddTeamMember (teamId userId : Z) (w : World) : option error * World :=
  if bool_decide ((teamId, userId) ∈ members w) then (Some "409 Conflict", w)
  else if bool_decide (userId ∈ gapi.Id <$> users w) then
    (None, {| users := users w; members := members w ++ [(teamId, userId)];
              next_id := next_id w; quota := quota w |})
  else (Some "404 Not Found", w).

Definition RemoveMemberFromTeam (teamId userId : Z) (w : World) : option error * World :=
  if bool_decide ((teamId, userId) ∈ members w) then
    (None, {| users := users w;
              members := filter (λ m, m ≠ (teamId, userId)) (members w);
              next_id := next_id w; quota := quota w |})
  else (Some "404 Not Found", w).

Definition client : gapi.Client World :=
  {| gapi.Users := Users;
     gapi.AddTeamMember := AddTeamMember;
     gapi.RemoveMemberFromTeam := RemoveMemberFromTeam |}.

(** Decimal numerals without sign; anything else reads as 0. *)
Fixpoint digits (s : string) (acc : Z) : Z :=
  match s with
  | EmptyString => acc
  | String c s' =>
      let n := Z.of_nat (Ascii.nat_of_ascii c) - 48 in
      if bool_decide (0 ≤ n ≤ 9)%Z then digits s' (10 * acc + n) else 0
  end.

Definition ParseInt (s : string) : Z := digits s 0.

(** The order of [map_to_list], and its reverse, as orders of [range]. *)
Definition range : gmap string TeamUser → list (string * TeamUser) := map_to_list.
Definition range_rev (m : gmap string TeamUser) : list (string * TeamUser) :=
  reverse (map_to_list m).

Definition start (w : World) : Remote World := {| world := w; trace := [] |}.

(** The directory knows [u1@x.com] as 100; the next user made is 200. *)
Definition w0 : World :=
  {| users := [{| gapi.Id := 100; gapi.Email := "u1@x.com" |}];
     members := [(7, 100)]; next_id := 200; quota := 5 |}.

Definition d0 : ResourceData :=
  {| d_Id := "7"; users_state := ["u1@x.com"];
     users_config := ["u1@x.com"; "u2@x.com"]; create_users := true |}.

(** Further inputs: one to add and one to remove; the same with
    [create_users] off; a key listed twice, in either list; the state
    read back after [d0] was applied. *)
Definition d1 : ResourceData :=
  {| d_Id := "7"; users_state := ["u1@x.com"; "u3@x.com"];
     users_config := ["u1@x.com"; "u2@x.com"]; create_users := true |}.

Definition d1_no_create : ResourceData :=
  {| d_Id := "7"; users_state := ["u1@x.com"; "u3@x.com"];
     users_config := ["u1@x.com"; "u2@x.com"]; create_users := false |}.

Definition d_dup_state : ResourceData :=
  {| d_Id := "7"; users_state := ["a@x.com"; "a@x.com"];
     users_config := []; create_users := true |}.

Definition d_dup_config : ResourceData :=
  {| d_Id := "7"; users_state := [];
     users_config := ["a@x.com"; "a@x.com"]; create_users := true |}.

Definition d0_applied : ResourceData :=
  {| d_Id := "7"; users_state := ["u2@x.com"; "u1@x.com"];
     users_config := ["u1@x.com"; "u2@x.com"]; create_users := true |}.

Definition d_u1 : ResourceData :=
  {| d_Id := "7"; users_state := [];
     users_config := ["u1@x.com"]; create_users := true |}.

(** Changes as [teamChanges] leaves them, with id 0. *)
Definition changes_u1 : list UserTeamChange :=
  [{| Type_ := Add; User := {| Id := 0; Email := "u1@x.com" |} |}].

Definition changes_u2 : list UserTeamChange :=
  [{| Type_ := Add; User := {| Id := 0; Email := "u2@x.com" |} |}].

Definition changes_u1_u2_u4 : list UserTeamChange :=
  [{| Type_ := Remove; User := {| Id := 0; Email := "u1@x.com" |} |};
   {| Type_ := Add; User := {| Id := 0; Email := "u2@x.com" |} |};
   {| Type_ := Add; User := {| Id := 0; Email := "u4@x.com" |} |}].


Definition w0_zero : World :=
  {| users := [{| gapi.Id := 0; gapi.Email := "u1@x.com" |}];
     members := []; next_id := 200; quota := 5 |}.

End Sim.

(** ** Vocabulary of the statements *)

(** The member [collectTeamUsers] stores for a key: not yet resolved. *)
Definition unresolved (email : string) : TeamUser := {| Id := 0; Email := email |}.

Definition change_of (t : ChangeType) (email : string) : UserTeamChange :=
  {| Type_ := t; User := unresolved email |}.

(** [m] is the membership set of the keys [us]. *)
Definition member_set (us : list string) (m : gmap string TeamUser) : Prop :=
  ∀ k, m !! k = if decide (k ∈ us) then Some (unresolved k) else None.

(** [s] occurs in [t]. *)
Fixpoint mentions (s t : string) : bool :=
  String.prefix s t ||
  match t with
  | EmptyString => false
  | String _ t' => mentions s t'
  end.

(** The two tests of [teamChanges], on an entry of the map ranged over. *)
Definition add_if_absent (stateUsers : gmap string TeamUser)
    (e : string * TeamUser) : option UserTeamChange :=
  match stateUsers !! Email e.2 with
  | None => Some {| Type_ := Add; User := e.2 |}
  | Some _ => None
  end.

Definition remove_if_absent (configUsers : gmap string TeamUser)
    (e : string * TeamUser) : option UserTeamChange :=
  match configUsers !! Email e.2 with
  | None => Some {| Type_ := Remove; User := e.2 |}
  | Some _ => None
  end.

(** The call [applyTeamChanges] makes for a change, with its answer. *)
Definition issued (teamId : Z) (change : UserTeamChange) (err : option error) : Event :=
  match Type_ change with
  | Add | Update => CallAddTeamMember teamId (Id (User change)) err
  | Remove => CallRemoveMemberFromTeam teamId (Id (User change)) err
  end.

(** The answers after which [applyTeamChanges] goes on. *)
Definition tolerated (err : option error) : Prop :=
  err = None ∨ err = Some "409 Conflict".

Definition update_as_add (change : UserTeamChange) : UserTeamChange :=
  match Type_ change with
  | Update => {| Type_ := Add; User := User change |}
  | _ => change
  end.

(** [change'] is [change] with the id the snapshot [gUserMap] lists for its
    key or, when it lists none, an id a successful [createUser] call of the
    trace [evs] returned for the key. *)
Definition resolved (gUserMap : gmap string Z) (evs : list Event)
    (change change' : UserTeamChange) : Prop :=
  ∃ id, change' = set_User_Id change id ∧
    (gUserMap !! Email (User change) = Some id ∨
     (gUserMap !! Email (User change) = None ∧
      CallCreateUser (Email (User change)) id None ∈ evs)).

Definition is_CallCreateUser (ev : Event) : Prop :=
  match ev with CallCreateUser _ _ _ => True | _ => False end.

Section LoopOnElements.

Context {W : Type}.
Variable createUser : string → W → (Z * option error) * W.
Local Open Scope remote_scope.

(** The loop of [addIdsToTeamChanges] as a recursion on the elements still
    to visit, with the result the function returns: [addIds_range] is
    shown below to compute it. *)
Fixpoint addIds_list (gUserMap : gmap string Z) (create : bool)
    (todo output : list UserTeamChange) : M W (list UserTeamChange * option error) :=
  match todo with
  | [] => ret (output, None)
  | change :: todo' =>
      match gUserMap !! Email (User change) with
      | Some id => addIds_list gUserMap create todo' (output ++ [set_User_Id change id])
      | None =>
          if create then
            let* (id, err) := call_createUser createUser (Email (User change)) in
            match err with
            | Some e => ret ([], Some e)
            | None => addIds_list gUserMap create todo' (output ++ [set_User_Id change id])
            end
          else ret ([], Some (unknown_user_error (Email (User change))))
      end
  end.

End LoopOnElements.

(** ** The resource functions

    [CreateTeam], [ReadTeam], [UpdateTeam], [DeleteTeam], [ExistsTeam],
    [ImportTeam] and [ReadTeamUsers]. They call further methods of the
    client; the calls of both kinds are kept in one log, in their order. *)

Module gapi_types.

(** The fields of [gapi.Team] and of a team member the code reads. *)
Record Team := { Name : string }.
Record TeamMember := { Login : string; Email : string }.

End gapi_types.

Module gapi_teams.

(** The team methods of the [gapi] client, on the same remote state. *)
Record Client (W : Type) := {
  AddTeam : string → string → W → (Z * option error) * W;
  Team : Z → W → (gapi_types.Team * option error) * W;
  UpdateTeam : Z → string → string → W → option error * W;
  DeleteTeam : Z → W → option error * W;
  TeamMembers : Z → W → (list gapi_types.TeamMember * option error) * W }.

Global Arguments AddTeam {W} _ _ _ _.
Global Arguments Team {W} _ _ _.
Global Arguments UpdateTeam {W} _ _ _ _ _.
Global Arguments DeleteTeam {W} _ _ _.
Global Arguments TeamMembers {W} _ _ _.

End gapi_teams.

Inductive TeamEvent :=
| Membership (ev : Event)
| CallAddTeam (name email : string) (id : Z) (err : option error)
| CallTeam (teamId : Z) (resp : gapi_types.Team) (err : option error)
| CallUpdateTeam (teamId : Z) (name email : string) (err : option error)
| CallDeleteTeam (teamId : Z) (err : option error)
| CallTeamMembers (teamId : Z) (teamUsers : list gapi_types.TeamMember)
    (err : option error).

Record Session (W : Type) := { remote : W; log : list TeamEvent }.
Global Arguments remote {W} _.
Global Arguments log {W} _.

Definition T (W A : Type) : Type := Session W → A * Session W.

Definition tret {W A} (a : A) : T W A := λ s, (a, s).
Definition tbind {W A B} (m : T W A) (k : A → T W B) : T W B :=
  λ s, let '(a, s') := m s in k a s'.

(** A computation on the membership calls, run inside a session: the
    calls it makes are appended to the log. *)
Definition lift {W A} (m : M W A) : T W A :=
  λ s, let '(a, r) := m {| world := remote s; trace := [] |} in
       (a, {| remote := world r; log := log s ++ (Membership <$> trace r) |}).

Declare Scope team_scope.
Delimit Scope team_scope with team.
Notation "'let*' p := m 'in' k" := (tbind m (λ x, match x with p => k end))
  (at level 10, p pattern, m at level 100, k at level 200) : team_scope.

(** What the resource functions read and write of a [schema.ResourceData]
    beyond what [UpdateTeamMembers] reads, [rd]: the attributes ["name"]
    and ["email"] and whether they changed ([d.HasChange]); the value
    [d.Get("admin_user")] when it holds a string; and the values last
    written with [d.Set("name", _)] and [d.Set("users", _)]. *)
Record TeamResourceData := {
  rd : ResourceData;
  name : string;
  email : string;
  HasChange_name : bool;
  HasChange_email : bool;
  admin_user : option string;
  Set_name : option string;
  Set_users : option (list string) }.

(** [d.SetId(v)]; [d.Id()] then returns [v]. *)
Definition SetId (v : string) (d : TeamResourceData) : TeamResourceData :=
  {| rd := {| d_Id := v; users_state := users_state (rd d);
              users_config := users_config (rd d);
              create_users := create_users (rd d) |};
     name := name d; email := email d;
     HasChange_name := HasChange_name d; HasChange_email := HasChange_email d;
     admin_user := admin_user d; Set_name := Set_name d; Set_users := Set_users d |}.

(** [d.Set("name", v)] *)
Definition Set_name_to (v : string) (d : TeamResourceData) : TeamResourceData :=
  {| rd := rd d; name := name d; email := email d;
     HasChange_name := HasChange_name d; HasChange_email := HasChange_email d;
     admin_user := admin_user d; Set_name := Some v; Set_users := Set_users d |}.

(** [d.Set("users", v)] *)
Definition Set_users_to (v : list string) (d : TeamResourceData) : TeamResourceData :=
  {| rd := rd d; name := name d; email := email d;
     HasChange_name := HasChange_name d; HasChange_email := HasChange_email d;
     admin_user := admin_user d; Set_name := Set_name d; Set_users := Some v |}.

(** [fmt.Sprintf("Error: Unable to import Grafana Team: %s.", err)]; for a
    nil [err] the verb prints as [%!s(<nil>)]. *)
Definition import_error (err : option error) : error :=
  "Error: Unable to import Grafana Team: " +:+
  match err with Some e => e | None => "%!s(<nil>)" end +:+ ".".

Section Resource.

Variable range : gmap string TeamUser → list (string * TeamUser).
Variable ParseInt : string → Z.
(** [strconv.FormatInt(n, 10)], which is also how [%d] prints an [int64]. *)
Variable FormatInt : Z → string.

Context {W : Type}.
Variable client : gapi.Client W.
Variable teams : gapi_teams.Client W.
Variable createUser : string → W → (Z * option error) * W.

(** [d.Set("admin_user", "admin")] and [d.Set("create_users", "true")] of
    [ImportTeam]: the first key is not in the schema of the resource and
    the second is given a string for a boolean, so what they write is
    left to the framework. *)
Variable Set_admin_user : string → TeamResourceData → TeamResourceData.
Variable Set_create_users : string → TeamResourceData → TeamResourceData.

Local Open Scope team_scope.

Definition call_AddTeam (name email : string) : T W (Z * option error) :=
  λ s, let '((id, err), w) := gapi_teams.AddTeam teams name email (remote s) in
       ((id, err), {| remote := w; log := log s ++ [CallAddTeam name email id err] |}).

Definition call_Team (teamId : Z) : T W (gapi_types.Team * option error) :=
  λ s, let '((resp, err), w) := gapi_teams.Team teams teamId (remote s) in
       ((resp, err), {| remote := w; log := log s ++ [CallTeam teamId resp err] |}).

Definition call_UpdateTeam (teamId : Z) (name email : string) : T W (option error) :=
  λ s, let '(err, w) := gapi_teams.UpdateTeam teams teamId name email (remote s) in
       (err, {| remote := w; log := log s ++ [CallUpdateTeam teamId name email err] |}).

Definition call_DeleteTeam (teamId : Z) : T W (option error) :=
  λ s, let '(err, w) := gapi_teams.DeleteTeam teams teamId (remote s) in
       (err, {| remote := w; log := log s ++ [CallDeleteTeam teamId err] |}).

Definition call_TeamMembers (teamId : Z)
  : T W (list gapi_types.TeamMember * option error) :=
  λ s, let '((teamUsers, err), w) := gapi_teams.TeamMembers teams teamId (remote s) in
       ((teamUsers, err),
        {| remote := w; log := log s ++ [CallTeamMembers teamId teamUsers err] |}).

Definition team_exists_error (name : string) (teamID : Z) : error :=
  "Error: A Grafana team with the name '" +:+ name +:+ "' and id '" +:+
  FormatInt teamID +:+ "' already exists.".

(** The functions take [d] and give it back as they leave it. *)

Definition CreateTeam (d : TeamResourceData) : T W (TeamResourceData * option error) :=
  let name := name d in
  let email := email d in
  let* (teamID, err) := call_AddTeam name email in
  match err with
  | Some e =>
      if bool_decide (e = "409 Conflict")
      then tret (d, Some (team_exists_error name teamID))
      else tret (d, Some e)
  | None =>
      let d := SetId (FormatInt teamID) d in
      let* err := lift (UpdateTeamMembers range ParseInt client createUser (rd d)) in
      tret (d, err)
  end.

Definition ReadTeamUsers (d : TeamResourceData) : T W (TeamResourceData * option error) :=
  let teamId := ParseInt (d_Id (rd d)) in
  let* (teamUsers, err) := call_TeamMembers teamId in
  match err with
  | Some e => tret (d, Some e)
  | None =>
      let userMap : list string := [] in
      let grafAdmin := admin_user d in
      let userMap :=
        foldl (λ userMap teamUser,
                 if bool_decide (Some (gapi_types.Login teamUser) ≠ grafAdmin)
                 then userMap ++ [gapi_types.Email teamUser]
                 else userMap) userMap teamUsers in
      let d := Set_users_to userMap d in
      tret (d, None)
  end.

(** The [log.Printf] of the [404] case writes to the log of the process
    only and is left out. *)
Definition ReadTeam (d : TeamResourceData) : T W (TeamResourceData * option error) :=
  let teamId := ParseInt (d_Id (rd d)) in
  let* (resp, err) := call_Team teamId in
  match err with
  | Some e =>
      if bool_decide (e = "404 Not Found")
      then let d := SetId "" d in tret (d, None)
      else tret (d, Some e)
  | None =>
      let d := Set_name_to (gapi_types.Name resp) d in
      let* (d, err) := ReadTeamUsers d in
      match err with
      | Some e => tret (d, Some e)
      | None => tret (d, None)
      end
  end.

Definition UpdateTeam (d : TeamResourceData) : T W (option error) :=
  let teamId := ParseInt (d_Id (rd d)) in
  let* err :=
    (if HasChange_name d || HasChange_email d
     then call_UpdateTeam teamId (name d) (email d)
     else tret None) in
  match err with
  | Some e => tret (Some e)
  | None => lift (UpdateTeamMembers range ParseInt client createUser (rd d))
  end.

Definition DeleteTeam (d : TeamResourceData) : T W (option error) :=
  let teamId := ParseInt (d_Id (rd d)) in
  call_DeleteTeam teamId.

Definition ExistsTeam (d : TeamResourceData) : T W (bool * option error) :=
  let teamId := ParseInt (d_Id (rd d)) in
  let* (_, err) := call_Team teamId in
  match err with
  | Some e =>
      if bool_decide (e = "404 Not Found") then tret (false, None)
      else tret (false, Some e)
  | None => tret (true, None)
  end.

Definition ImportTeam (d : TeamResourceData)
  : T W (TeamResourceData * list TeamResourceData * option error) :=
  let* (exists_, err) := ExistsTeam d in
  if bool_decide (err ≠ None) || negb exists_
  then tret (d, [], Some (import_error err))
  else
    let d := Set_admin_user "admin" d in
    let d := Set_create_users "true" d in
    let* (d, err) := ReadTeam d in
    match err with
    | Some e => tret (d, [], Some e)
    | None => tret (d, [d], None)
    end.

End Resource.

(** ** A reference remote service with teams

    [Sim.World] with a list of teams: [AddTeam] answers [409 Conflict] for
    a name that is taken, the other methods [404 Not Found] for a team that
    does not exist; the login of a member is its email. *)
Module SimTeam.

Record World := { base : Sim.World; teams : list (Z * string); next_team : Z }.

Definition on_base {A} (f : Sim.World → A * Sim.World) (w : World) : A * World :=
  let '(a, b) := f (base w) in
  (a, {| base := b; teams := teams w; next_team := next_team w |}).

Definition client : gapi.Client World :=
  {| gapi.Users := on_base Sim.Users;
     gapi.AddTeamMember := λ teamId userId, on_base (Sim.AddTeamMember teamId userId);
     gapi.RemoveMemberFromTeam :=
       λ teamId userId, on_base (Sim.RemoveMemberFromTeam teamId userId) |}.

Definition createUser (email : string) : World → (Z * option error) * World :=
  on_base (Sim.createUser email).

Definition AddTeam (name email : string) (w : World) : (Z * option error) * World :=
  if bool_decide (name ∈ (teams w).*2) then ((0, Some "409 Conflict"), w)
  else ((next_team w, None),
        {| base := base w; teams := teams w ++ [(next_team w, name)];
           next_team := next_team w + 1 |}).

Definition Team (teamId : Z) (w : World) : (gapi_types.Team * option error) * World :=
  match list_find (λ t, t.1 = teamId) (teams w) with
  | Some (_, (_, name)) => (({| gapi_types.Name := name |}, None), w)
  | None => (({| gapi_types.Name := "" |}, Some "404 Not Found"), w)
  end.

Definition UpdateTeam (teamId : Z) (name email : string) (w : World)
  : option error * World :=
  if bool_decide (teamId ∈ (teams w).*1) then
    (None, {| base := base w;
              teams := (λ t, if bool_decide (t.1 = teamId) then (teamId, name) else t)
                         <$> teams w;
              next_team := next_team w |})
  else (Some "404 Not Found", w).

Definition DeleteTeam (teamId : Z) (w : World) : option error * World :=
  if bool_decide (teamId ∈ (teams w).*1) then
    (None, {| base := base w; teams := filter (λ t, t.1 ≠ teamId) (teams w);
              next_team := next_team w |})
  else (Some "404 Not Found", w).

Definition member_of (w : World) (m : Z * Z) : option gapi_types.TeamMember :=
  match list_find (λ u, gapi.Id u = m.2) (Sim.users (base w)) with
  | Some (_, u) => Some {| gapi_types.Login := gapi.Email u;
                           gapi_types.Email := gapi.Email u |}
  | None => None
  end.

Definition TeamMembers (teamId : Z) (w : World)
  : (list gapi_types.TeamMember * option error) * World :=
  if bool_decide (teamId ∈ (teams w).*1) then
    ((omap (member_of w) (filter (λ m, m.1 = teamId) (Sim.members (base w))), None), w)
  else (([], Some "404 Not Found"), w).

Definition teams_client : gapi_teams.Client World :=
  {| gapi_teams.AddTeam := AddTeam; gapi_teams.Team := Team;
     gapi_teams.UpdateTeam := UpdateTeam; gapi_teams.DeleteTeam := DeleteTeam;
     gapi_teams.TeamMembers := TeamMembers |}.

(** Decimal numerals of the numbers from 0 on. *)
Definition FormatInt (n : Z) : string := pretty (Z.to_N n).

Definition start (w : World) : Session World := {| remote := w; log := [] |}.

(** Team 7, called [ops], over [Sim.w0]; the next team made is 8. *)
Definition w0 : World :=
  {| base := Sim.w0; teams := [(7, "ops")]; next_team := 8 |}.

Definition resource (d : ResourceData) (name : string) : TeamResourceData :=
  {| rd := d; name := name; email := "";
     HasChange_name := true; HasChange_email := false;
     admin_user := None; Set_name := None; Set_users := None |}.

End SimTeam.

(** Further inputs for the reference services. *)
Module SimMore.

(** [Sim.d1] with its lists in another order. *)
Definition d1_reordered : ResourceData :=
  {| d_Id := "7"; users_state := ["u3@x.com"; "u1@x.com"];
     users_config := ["u2@x.com"; "u1@x.com"]; create_users := true |}.

(** A client whose [Users] fails. *)
Definition client_down : gapi.Client Sim.World :=
  {| gapi.Users := λ w, (([], Some "503 Service Unavailable"), w);
     gapi.AddTeamMember := Sim.AddTeamMember;
     gapi.RemoveMemberFromTeam := Sim.RemoveMemberFromTeam |}.

(** A resource whose team, 9, the service does not have. *)
Definition d_gone : TeamResourceData :=
  SimTeam.resource
    {| d_Id := "9"; users_state := []; users_config := []; create_users := true |}
    "gone".

End SimMore.

(** ** Further vocabulary *)

(** The keys of a team once [changes] are applied to it, in their order. *)
Definition patch (keys : gset string) (changes : list UserTeamChange) : gset string :=
  foldl (λ keys c, match Type_ c with
                   | Add | Update => keys ∪ {[Email (User c)]}
                   | Remove => keys ∖ {[Email (User c)]}
                   end) keys changes.

Definition retype (f : ChangeType → ChangeType) (c : UserTeamChange) : UserTeamChange :=
  {| Type_ := f (Type_ c); User := User c |}.

Definition opposite (t : ChangeType) : ChangeType :=
  match t with Add => Remove | Remove => Add | Update => Update end.

(** The keys of [changes] the snapshot lacks, in the order of the changes. *)
Definition unknown_keys (gUserMap : gmap string Z) (changes : list UserTeamChange)
  : list string :=
  filter (λ k, gUserMap !! k = None) ((λ c, Email (User c)) <$> changes).

Definition created (email : string) (answer : Z * option error) : Event :=
  CallCreateUser email answer.1 answer.2.

(** [change] with the id the snapshot lists for its key. *)
Definition resolve_known (gUserMap : gmap string Z) (change : UserTeamChange)
  : UserTeamChange :=
  set_User_Id change (default 0 (gUserMap !! Email (User change))).

(** [ev] is a call that adds to or removes from the team [teamId]. *)
Definition targets (teamId : Z) (ev : Event) : Prop :=
  match ev with
  | CallAddTeamMember t _ _ | CallRemoveMemberFromTeam t _ _ => t = teamId
  | _ => False
  end.

Definition create_failed (ev : Event) : Prop :=
  match ev with CallCreateUser _ _ (Some _) => True | _ => False end.

Section Serving.

Context {W : Type}.
Variable client : gapi.Client W.

(** The call on the client that a change stands for, made in the state
    [w]: its answer and the state it leaves. *)
Definition dispatch (teamId : Z) (change : UserTeamChange) (w : W) : option error * W :=
  match Type_ change with
  | Add | Update => gapi.AddTeamMember client teamId (Id (User change)) w
  | Remove => gapi.RemoveMemberFromTeam client teamId (Id (User change)) w
  end.

(** The client called for every change of a list, in order and each time
    in the state the call before left: its answers and the last state. *)
Fixpoint serve (teamId : Z) (changes : list UserTeamChange) (w : W)
  : list (option error) * W :=
  match changes with
  | [] => ([], w)
  | change :: changes' =>
      let '(err, w1) := dispatch teamId change w in
      let '(answers, w') := serve teamId changes' w1 in
      (err :: answers, w')
  end.

End Serving.

(** * Properties *)

(** ** The membership sets *)

Lemma collect_loop_inl us : ∀ m m',
  collect_loop us m = inl m' →
  NoDup us ∧ (∀ k, k ∈ us → m !! k = None) ∧
  ∀ k, m' !! k = if decide (k ∈ us) then Some (unresolved k) else m !! k.
Proof.
  induction us as [|email us IH]; intros m m' Hrun; simpl in Hrun.
  - inversion Hrun; subst. split; [constructor|]. split; [set_solver|].
    intros k. by rewrite decide_False by set_solver.
  - destruct (m !! email) eqn:Hm; [done|].
    apply IH in Hrun as (Hnd & Hfresh & Hlook).
    assert (email ∉ us) as Hnotin.
    { intros Hin. specialize (Hfresh _ Hin). by rewrite lookup_insert_eq in Hfresh. }
    split; [by constructor|]. split.
    + intros k [->|Hin]%elem_of_cons; [done|].
      specialize (Hfresh _ Hin). rewrite lookup_insert_ne in Hfresh; [done|].
      intros ->. done.
    + intros k. rewrite Hlook. destruct (decide (k = email)) as [->|Hne].
      * rewrite decide_False by done. rewrite lookup_insert_eq.
        by rewrite decide_True by (apply elem_of_cons; auto).
      * rewrite lookup_insert_ne by done.
        destruct (decide (k ∈ us)).
        -- by rewrite decide_True by (apply elem_of_cons; auto).
        -- by rewrite decide_False by (intros [?|?]%elem_of_cons; done).
Qed.

Lemma collect_loop_NoDup us : ∀ m,
  NoDup us → (∀ k, k ∈ us → m !! k = None) → ∃ m', collect_loop us m = inl m'.
Proof.
  induction us as [|email us IH]; intros m Hnd Hfresh; simpl; [by eexists|].
  apply NoDup_cons in Hnd as [Hnotin Hnd].
  rewrite Hfresh by set_solver. apply IH; [done|].
  intros k Hin. rewrite lookup_insert_ne; [apply Hfresh; set_solver|].
  intros ->. done.
Qed.

(** An error of [collect_loop] names the first key that repeats. *)
Lemma collect_loop_inr us : ∀ m e,
  collect_loop us m = inr e →
  ∃ pre k post, us = pre ++ k :: post ∧ e = duplicate_user_error k ∧
    NoDup pre ∧ (∀ k', k' ∈ pre → m !! k' = None) ∧
    (k ∈ pre ∨ is_Some (m !! k)).
Proof.
  induction us as [|email us IH]; intros m e Hrun; simpl in Hrun; [done|].
  destruct (m !! email) eqn:Hm.
  - inversion Hrun; subst. exists [], email, us.
    split; [done|]. split; [done|]. split; [constructor|]. split; [set_solver|].
    right. by eexists.
  - apply IH in Hrun as (pre & k & post & -> & -> & Hnd & Hfresh & Hk).
    assert (email ∉ pre) as Hnotin.
    { intros Hin. specialize (Hfresh _ Hin). by rewrite lookup_insert_eq in Hfresh. }
    exists (email :: pre), k, post.
    split; [done|]. split; [done|]. split; [by constructor|]. split.
    + intros k' [->|Hin]%elem_of_cons; [done|].
      specialize (Hfresh _ Hin). rewrite lookup_insert_ne in Hfresh; [done|].
      intros ->. done.
    + destruct Hk as [Hk|[u Hk]]; [left; set_solver|].
      destruct (decide (email = k)) as [->|Hne]; [left; set_solver|].
      rewrite lookup_insert_ne in Hk by done. right. by eexists.
Qed.

Lemma collect_loop_dup us :
  ¬ NoDup us → ∃ e, collect_loop us ∅ = inr e.
Proof.
  intros Hdup. destruct (collect_loop us ∅) as [m'|e] eqn:Hrun; [|by eexists].
  apply collect_loop_inl in Hrun as [Hnd _]. done.
Qed.

Lemma collect_loop_member_set us :
  NoDup us → ∃ m, collect_loop us ∅ = inl m ∧ member_set us m.
Proof.
  intros Hnd. destruct (collect_loop_NoDup us ∅ Hnd) as [m Hrun].
  { intros. apply lookup_empty. }
  exists m. split; [done|]. apply collect_loop_inl in Hrun as (_ & _ & Hlook).
  intros k. rewrite Hlook. by rewrite lookup_empty.
Qed.

Lemma collectTeamUsers_NoDup d :
  NoDup (users_state d) → NoDup (users_config d) →
  ∃ stateUsers configUsers,
    collectTeamUsers d = (stateUsers, configUsers, None) ∧
    member_set (users_state d) stateUsers ∧ member_set (users_config d) configUsers.
Proof.
  intros Hs Hc. unfold collectTeamUsers, GetChange_users.
  destruct (collect_loop_member_set _ Hs) as (ms & -> & Hms).
  destruct (collect_loop_member_set _ Hc) as (mc & -> & Hmc).
  by exists ms, mc.
Qed.

Lemma collectTeamUsers_ok d stateUsers configUsers :
  collectTeamUsers d = (stateUsers, configUsers, None) →
  NoDup (users_state d) ∧ NoDup (users_config d) ∧
  member_set (users_state d) stateUsers ∧ member_set (users_config d) configUsers.
Proof.
  unfold collectTeamUsers, GetChange_users.
  destruct (collect_loop (users_state d) ∅) as [ms|] eqn:Hs; [|done].
  destruct (collect_loop (users_config d) ∅) as [mc|] eqn:Hc; [|done].
  intros [= <- <-].
  apply collect_loop_inl in Hs as (Hnds & _ & Hls).
  apply collect_loop_inl in Hc as (Hndc & _ & Hlc).
  repeat split; try done.
Qed.

Lemma member_set_to_list us m :
  NoDup us → member_set us m →
  map_to_list m ≡ₚ (λ k, (k, unresolved k)) <$> us.
Proof.
  intros Hnd Hm.
  assert (m = list_to_map ((λ k, (k, unresolved k)) <$> us)) as ->.
  { apply map_eq. intros k. rewrite Hm. destruct (decide (k ∈ us)) as [Hin|Hnotin].
    - symmetry. apply elem_of_list_to_map.
      + rewrite <- list_fmap_compose. simpl. by rewrite list_fmap_id.
      + apply list_elem_of_fmap. by exists k.
    - symmetry. apply not_elem_of_list_to_map.
      rewrite <- list_fmap_compose. simpl. by rewrite list_fmap_id. }
  apply map_to_list_to_map.
  rewrite <- list_fmap_compose. simpl. by rewrite list_fmap_id.
Qed.

(** ** The differ *)

Lemma foldl_append_omap {A B} (f : A → option B) (g : list B → A → list B) :
  (∀ acc a, g acc a = acc ++ from_option (λ b, [b]) [] (f a)) →
  ∀ l acc, foldl g acc l = acc ++ omap f l.
Proof.
  intros Hg. induction l as [|a l IH]; intros acc; simpl.
  - by rewrite app_nil_r.
  - rewrite IH, Hg. destruct (f a); simpl.
    + by rewrite <- app_assoc.
    + by rewrite app_nil_r.
Qed.

Lemma teamChanges_omap range stateUsers configUsers :
  teamChanges range stateUsers configUsers =
    omap (add_if_absent stateUsers) (range configUsers) ++
    omap (remove_if_absent configUsers) (range stateUsers).
Proof.
  unfold teamChanges.
  rewrite (foldl_append_omap (remove_if_absent configUsers)).
  - rewrite (foldl_append_omap (add_if_absent stateUsers)); [done|].
    intros acc [k u]. unfold add_if_absent. simpl.
    destruct (stateUsers !! Email u); simpl; [by rewrite app_nil_r|done].
  - intros acc [k u]. unfold remove_if_absent. simpl.
    destruct (configUsers !! Email u); simpl; [by rewrite app_nil_r|done].
Qed.

Lemma omap_member_set (t : ChangeType) (other : gmap string TeamUser)
    (f : string * TeamUser → option UserTeamChange) us others :
  member_set others other →
  (∀ e, f e = match other !! Email e.2 with
              | None => Some {| Type_ := t; User := e.2 |}
              | Some _ => None
              end) →
  omap f ((λ k, (k, unresolved k)) <$> us) = change_of t <$> list_difference us others.
Proof.
  intros Hother Hf. induction us as [|k us IH]; [done|].
  simpl. rewrite Hf. simpl. rewrite Hother. unfold decide_rel.
  destruct (decide (k ∈ others)), (list_elem_of_dec k others); try done.
  simpl. f_equal. exact IH.
Qed.

Lemma list_difference_size (l k : list string) :
  NoDup l →
  length (list_difference l k) = size (list_to_set l ∖ list_to_set k : gset string).
Proof.
  intros Hnd.
  rewrite <- (size_list_to_set (C := gset string) (list_difference l k))
    by by apply NoDup_list_difference.
  f_equal. apply set_eq. intros x.
  rewrite elem_of_difference, !elem_of_list_to_set, list_elem_of_difference. done.
Qed.

Lemma list_difference_elements (l k : list string) :
  NoDup l →
  list_difference l k ≡ₚ elements (list_to_set l ∖ list_to_set k : gset string).
Proof.
  intros Hnd. apply NoDup_Permutation.
  - by apply NoDup_list_difference.
  - apply NoDup_elements.
  - intros x. rewrite elem_of_elements, elem_of_difference, !elem_of_list_to_set.
    apply list_elem_of_difference.
Qed.

Global Instance change_of_inj t : Inj (=) (=) (change_of t).
Proof. intros k1 k2 Heq. by inversion Heq. Qed.

Lemma filter_type_change_of t t' (l : list string) :
  filter (λ c, Type_ c = t) (change_of t' <$> l) =
    if decide (t' = t) then change_of t' <$> l else [].
Proof.
  induction l as [|k l IH]; [by destruct (decide (t' = t))|].
  rewrite fmap_cons, filter_cons, IH. simpl.
  destruct (decide (t' = t)); done.
Qed.

Section DifferFacts.

Variable range : gmap string TeamUser → list (string * TeamUser).
Hypothesis range_perm : ∀ m, range m ≡ₚ map_to_list m.

Lemma teamChanges_member_sets state config stateUsers configUsers :
  NoDup state → NoDup config →
  member_set state stateUsers → member_set config configUsers →
  teamChanges range stateUsers configUsers ≡ₚ
    (change_of Add <$> list_difference config state) ++
    (change_of Remove <$> list_difference state config).
Proof.
  intros Hnds Hndc Hs Hc. rewrite teamChanges_omap.
  rewrite !range_perm.
  rewrite (member_set_to_list _ _ Hndc Hc), (member_set_to_list _ _ Hnds Hs).
  rewrite (omap_member_set Add stateUsers _ config state Hs) by done.
  rewrite (omap_member_set Remove configUsers _ state config Hc) by done.
  done.
Qed.

(** C1: for duplicate-free lists of previous and desired members, the
    changes [teamChanges] computes are, up to their order, one unresolved
    [Add] for each key that is desired and not previous, followed by one
    unresolved [Remove] for each key that is previous and not desired;
    no change occurs twice, none is about a key of both sets, and the
    number of [Add]s and of [Remove]s are the sizes of the two set
    differences. *)
Theorem teamChanges_exact_adds_and_removes (d : ResourceData) :
  NoDup (users_state d) → NoDup (users_config d) →
  ∃ stateUsers configUsers,
    collectTeamUsers d = (stateUsers, configUsers, None) ∧
    let changes := teamChanges range stateUsers configUsers in
    let P : gset string := list_to_set (users_state d) in
    let D : gset string := list_to_set (users_config d) in
    changes ≡ₚ (change_of Add <$> elements (D ∖ P)) ++
               (change_of Remove <$> elements (P ∖ D)) ∧
    NoDup changes ∧
    (∀ c, c ∈ changes → Email (User c) ∉ P ∩ D) ∧
    length (filter (λ c, Type_ c = Add) changes) = size (D ∖ P) ∧
    length (filter (λ c, Type_ c = Remove) changes) = size (P ∖ D) ∧
    length changes = (size (D ∖ P) + size (P ∖ D))%nat.
Proof.
  intros Hnds Hndc.
  destruct (collectTeamUsers_NoDup d Hnds Hndc) as (stateUsers & configUsers & Heq & Hs & Hc).
  exists stateUsers, configUsers. split; [done|]. intros changes P D.
  pose proof (teamChanges_member_sets _ _ _ _ Hnds Hndc Hs Hc) as Hperm.
  fold changes in Hperm.
  pose proof (list_difference_elements (users_config d) (users_state d) Hndc) as HDP.
  pose proof (list_difference_elements (users_state d) (users_config d) Hnds) as HPD.
  fold P D in HDP, HPD.
  assert (changes ≡ₚ (change_of Add <$> elements (D ∖ P)) ++
                     (change_of Remove <$> elements (P ∖ D))) as Hperm'.
  { by rewrite Hperm, HDP, HPD. }
  split; [done|]. split; [|split; [|split; [|split]]].
  - rewrite Hperm'. apply NoDup_app. split; [|split].
    + apply NoDup_fmap_2; [apply _|apply NoDup_elements].
    + intros c (k1 & -> & _)%list_elem_of_fmap (k2 & Hk & _)%list_elem_of_fmap.
      discriminate Hk.
    + apply NoDup_fmap_2; [apply _|apply NoDup_elements].
  - intros c Hin. rewrite Hperm' in Hin.
    apply elem_of_app in Hin as [Hin|Hin];
      apply list_elem_of_fmap in Hin as (k & -> & Hk);
      apply elem_of_elements, elem_of_difference in Hk as [? ?]; simpl;
      rewrite elem_of_intersection; tauto.
  - rewrite Hperm', filter_app, !filter_type_change_of.
    rewrite decide_True, decide_False by done.
    by rewrite app_nil_r, length_fmap.
  - rewrite Hperm', filter_app, !filter_type_change_of.
    rewrite decide_False, decide_True by done.
    by rewrite app_nil_l, length_fmap.
  - rewrite Hperm', length_app, !length_fmap. unfold size, set_size. simpl. lia.
Qed.

End DifferFacts.

(** ** The resolver *)

Section ResolverFacts.

Context {W : Type}.
Variable client : gapi.Client W.
Variable createUser : string → W → (Z * option error) * W.

Lemma resolved_weaken gUserMap evs evs' c c' :
  resolved gUserMap evs c c' → (∀ ev, ev ∈ evs → ev ∈ evs') →
  resolved gUserMap evs' c c'.
Proof.
  intros (id & -> & Hid) Hsub. exists id. split; [done|].
  destruct Hid as [Hid|[Hid Hev]]; [by left|right; auto].
Qed.

(** The loop on indices computes what the loop on elements does, and
    leaves the slice it ranges over as it was. *)
Lemma addIds_range_list gUserMap create : ∀ n k fr s,
  (k + n = length (fr_changes fr))%nat →
  ∃ fr' err s',
    addIds_range createUser gUserMap create (seq k n) fr s = ((fr', err), s') ∧
    fr_changes fr' = fr_changes fr ∧
    addIds_list createUser gUserMap create (drop k (fr_changes fr)) (fr_output fr) s =
      ((match err with None => fr_output fr' | Some _ => [] end, err), s').
Proof.
  induction n as [|n IH]; intros k fr s Hlen.
  - simpl. exists fr, None, s. split; [done|]. split; [done|].
    rewrite drop_ge by lia. done.
  - destruct (lookup_lt_is_Some_2 (fr_changes fr) k) as [c Hc]; [lia|].
    simpl. rewrite Hc, (drop_S _ _ _ Hc). simpl.
    destruct (gUserMap !! Email (User c)) as [id|] eqn:Hid; simpl.
    + unfold bind, ret.
      edestruct (IH (S k) {| fr_changes := fr_changes fr;
                             fr_output := fr_output fr ++ [set_User_Id c id] |} s)
        as (fr' & err & s' & Hrun & Hch & Hlist); [simpl; lia|].
      exists fr', err, s'. done.
    + destruct create; simpl.
      * unfold bind, ret.
        destruct (call_createUser createUser (Email (User c)) s) as [[id err] s1].
        destruct err as [e|].
        -- exists fr, (Some e), s1. done.
        -- edestruct (IH (S k) {| fr_changes := fr_changes fr;
                                 fr_output := fr_output fr ++ [set_User_Id c id] |} s1)
             as (fr' & err & s' & Hrun & Hch & Hlist); [simpl; lia|].
           exists fr', err, s'. done.
      * exists fr, (Some (unknown_user_error (Email (User c)))), s. done.
Qed.

Lemma addIdsToTeamChanges_frame_Users_error d changes s gUsers e w :
  gapi.Users client (world s) = ((gUsers, Some e), w) →
  addIdsToTeamChanges_frame client createUser d changes s =
    (({| fr_changes := changes; fr_output := [] |}, Some e),
     {| world := w; trace := trace s ++ [CallUsers gUsers (Some e)] |}).
Proof.
  intros HU. unfold addIdsToTeamChanges_frame, bind, call_Users. by rewrite HU.
Qed.

(** What [addIdsToTeamChanges] does once [Users] has answered. *)
Lemma addIdsToTeamChanges_frame_list d changes s gUsers w :
  gapi.Users client (world s) = ((gUsers, None), w) →
  ∃ fr err s',
    addIdsToTeamChanges_frame client createUser d changes s = ((fr, err), s') ∧
    fr_changes fr = changes ∧
    addIds_list createUser (build_gUserMap gUsers) (create_users d) changes []
      {| world := w; trace := trace s ++ [CallUsers gUsers None] |} =
      ((match err with None => fr_output fr | Some _ => [] end, err), s').
Proof.
  intros HU. unfold addIdsToTeamChanges_frame, bind, call_Users. rewrite HU.
  edestruct (addIds_range_list (build_gUserMap gUsers) (create_users d)
               (length changes) 0 {| fr_changes := changes; fr_output := [] |})
    as (fr & err & s' & Hrun & Hch & Hlist); [simpl; lia|].
  exists fr, err, s'. split; [exact Hrun|]. split; [exact Hch|]. exact Hlist.
Qed.

Lemma addIdsToTeamChanges_list d changes s gUsers w :
  gapi.Users client (world s) = ((gUsers, None), w) →
  addIdsToTeamChanges client createUser d changes s =
    addIds_list createUser (build_gUserMap gUsers) (create_users d) changes []
      {| world := w; trace := trace s ++ [CallUsers gUsers None] |}.
Proof.
  intros HU.
  destruct (addIdsToTeamChanges_frame_list d changes s gUsers w HU)
    as (fr & err & s' & Hrun & _ & Hlist).
  unfold addIdsToTeamChanges, bind. rewrite Hrun, Hlist. by destruct err.
Qed.

Lemma addIdsToTeamChanges_Users_error d changes s gUsers e w :
  gapi.Users client (world s) = ((gUsers, Some e), w) →
  addIdsToTeamChanges client createUser d changes s =
    (([], Some e), {| world := w; trace := trace s ++ [CallUsers gUsers (Some e)] |}).
Proof.
  intros HU. unfold addIdsToTeamChanges, bind.
  by rewrite (addIdsToTeamChanges_frame_Users_error _ _ _ _ _ _ HU).
Qed.

(** The loop on elements: what it returns and which calls it makes. *)
Lemma addIds_list_spec gUserMap create : ∀ todo output s out err s',
  addIds_list createUser gUserMap create todo output s = ((out, err), s') →
  ∃ evs, trace s' = trace s ++ evs ∧ Forall is_CallCreateUser evs ∧
    (create = false → evs = []) ∧
    match err with
    | None => ∃ res, out = output ++ res ∧ Forall2 (resolved gUserMap evs) todo res
    | Some e =>
        out = [] ∧
        ∃ pre c post, todo = pre ++ c :: post ∧
          gUserMap !! Email (User c) = None ∧
          if create
          then ∃ evs' id, evs = evs' ++ [CallCreateUser (Email (User c)) id (Some e)]
          else e = unknown_user_error (Email (User c)) ∧
               Forall (λ c, is_Some (gUserMap !! Email (User c))) pre
    end.
Proof.
  induction todo as [|c todo IH]; intros output s out err s' Hrun; simpl in Hrun.
  - inversion Hrun; subst. exists []. rewrite app_nil_r.
    split; [done|]. split; [constructor|]. split; [done|].
    exists []. by rewrite app_nil_r.
  - destruct (gUserMap !! Email (User c)) as [id|] eqn:Hid.
    + apply IH in Hrun as (evs & Htr & Hcr & Hnc & Hres).
      exists evs. split; [done|]. split; [done|]. split; [done|].
      destruct err as [e|].
      * destruct Hres as (-> & pre & c' & post & -> & Hc' & Hrest).
        split; [done|]. exists (c :: pre), c', post. split; [done|]. split; [done|].
        destruct create; [done|]. destruct Hrest as [-> Hpre].
        split; [done|]. constructor; [by rewrite Hid|done].
      * destruct Hres as (res & -> & Hres).
        exists (set_User_Id c id :: res). rewrite <- app_assoc. split; [done|].
        constructor; [|done]. exists id. split; [done|]. by left.
    + destruct create.
      * unfold bind in Hrun.
        destruct (call_createUser createUser (Email (User c)) s) as [[id cerr] s1] eqn:Hcall.
        assert (trace s1 = trace s ++ [CallCreateUser (Email (User c)) id cerr]) as Hs1.
        { unfold call_createUser in Hcall.
          destruct (createUser (Email (User c)) (world s)) as [[id' cerr'] w'].
          by inversion Hcall. }
        destruct cerr as [e|].
        -- inversion Hrun; subst. eexists. split; [exact Hs1|].
           split; [by repeat constructor|]. split; [done|]. split; [done|].
           exists [], c, todo. split; [done|]. split; [done|]. by exists [], id.
        -- apply IH in Hrun as (evs & Htr & Hcr & _ & Hres).
           exists (CallCreateUser (Email (User c)) id None :: evs).
           split; [rewrite Htr, Hs1; by rewrite <- app_assoc|].
           split; [by constructor|]. split; [done|].
           destruct err as [e|].
           ++ destruct Hres as (-> & pre & c' & post & -> & Hc' & evs' & id' & ->).
              split; [done|]. exists (c :: pre), c', post. split; [done|].
              split; [done|].
              by exists (CallCreateUser (Email (User c)) id None :: evs'), id'.
           ++ destruct Hres as (res & -> & Hres).
              exists (set_User_Id c id :: res). rewrite <- app_assoc. split; [done|].
              constructor.
              ** exists id. split; [done|]. right. split; [done|]. by left.
              ** eapply Forall2_impl; [exact Hres|].
                 intros x y Hxy. eapply resolved_weaken; [exact Hxy|].
                 intros ev Hev. by right.
      * inversion Hrun; subst. exists []. rewrite app_nil_r.
        split; [done|]. split; [constructor|]. split; [done|]. split; [done|].
        exists [], c, todo. split; [done|]. split; [done|]. split; [done|]. constructor.
Qed.

End ResolverFacts.

(** ** The applier *)

Section ApplierFacts.

Context {W : Type}.
Variable client : gapi.Client W.

Lemma dispatch_trace teamId (c : UserTeamChange) (s s1 : Remote W) err :
  match Type_ c with
  | Add | Update => call_AddTeamMember client teamId (Id (User c))
  | Remove => call_RemoveMemberFromTeam client teamId (Id (User c))
  end s = (err, s1) →
  trace s1 = trace s ++ [issued teamId c err].
Proof.
  unfold issued, call_AddTeamMember, call_RemoveMemberFromTeam.
  destruct (Type_ c).
  - destruct (gapi.AddTeamMember client teamId (Id (User c)) (world s)) as [err' w].
    by intros [= <- <-].
  - destruct (gapi.AddTeamMember client teamId (Id (User c)) (world s)) as [err' w].
    by intros [= <- <-].
  - destruct (gapi.RemoveMemberFromTeam client teamId (Id (User c)) (world s)) as [err' w].
    by intros [= <- <-].
Qed.

Lemma dispatch_call teamId (c : UserTeamChange) (s : Remote W) :
  match Type_ c with
  | Add | Update => call_AddTeamMember client teamId (Id (User c))
  | Remove => call_RemoveMemberFromTeam client teamId (Id (User c))
  end s =
    ((dispatch client teamId c (world s)).1,
     {| world := (dispatch client teamId c (world s)).2;
        trace := trace s ++ [issued teamId c (dispatch client teamId c (world s)).1] |}).
Proof.
  unfold dispatch, issued, call_AddTeamMember, call_RemoveMemberFromTeam.
  destruct (Type_ c).
  - by destruct (gapi.AddTeamMember client teamId (Id (User c)) (world s)).
  - by destruct (gapi.AddTeamMember client teamId (Id (User c)) (world s)).
  - by destruct (gapi.RemoveMemberFromTeam client teamId (Id (User c)) (world s)).
Qed.

(** C2: [applyTeamChanges] calls the remote service for the changes in
    the order of the list, one call per change: the calls it has made are
    those of a prefix of the list, paired in order with their answers.
    These answers are the ones the client gave, [AddTeamMember] for an
    [Add] or an [Update] and [RemoveMemberFromTeam] for a [Remove], each
    call made in the state the call before left, and the state returned is
    the one the last call left. When it returns nil, every change was
    attempted and every answer was nil or [409 Conflict]; when it returns
    an error, that error is not [409 Conflict], it is the answer to the
    last call made, every answer before it was nil or [409 Conflict], and
    no call follows it. *)
Theorem applyTeamChanges_in_order_conflicts_tolerated (teamId : Z) :
  ∀ (changes : list UserTeamChange) (s : Remote W),
  ∃ answers : list (option error),
    trace (applyTeamChanges client teamId changes s).2 =
      trace s ++ zip_with (issued teamId) changes answers ∧
    (length answers ≤ length changes)%nat ∧
    serve client teamId (take (length answers) changes) (world s) =
      (answers, world (applyTeamChanges client teamId changes s).2) ∧
    match (applyTeamChanges client teamId changes s).1 with
    | None => length answers = length changes ∧ Forall tolerated answers
    | Some e =>
        e ≠ "409 Conflict" ∧
        ∃ before, answers = before ++ [Some e] ∧ Forall tolerated before
    end.
Proof.
  induction changes as [|c changes IH]; intros s.
  - exists []. simpl. rewrite app_nil_r. repeat split; constructor.
  - cbn [applyTeamChanges]. unfold bind. rewrite dispatch_call.
    destruct (dispatch client teamId c (world s)) as [err w1] eqn:Hd.
    cbn [fst snd].
    set (s1 := {| world := w1; trace := trace s ++ [issued teamId c err] |}).
    assert (tolerated err →
            ∃ answers,
              trace (applyTeamChanges client teamId changes s1).2 =
                trace s ++ zip_with (issued teamId) (c :: changes) answers ∧
              (length answers ≤ length (c :: changes))%nat ∧
              serve client teamId (take (length answers) (c :: changes)) (world s) =
                (answers, world (applyTeamChanges client teamId changes s1).2) ∧
              match (applyTeamChanges client teamId changes s1).1 with
              | None => length answers = length (c :: changes) ∧ Forall tolerated answers
              | Some e => e ≠ "409 Conflict" ∧
                  ∃ before, answers = before ++ [Some e] ∧ Forall tolerated before
              end) as Hgo.
    { intros Htol. destruct (IH s1) as (answers & Htr & Hlen & Hserve & Hres).
      exists (err :: answers). cbn [length take serve zip_with].
      rewrite Htr, Hd. simpl in Hserve. rewrite Hserve. simpl. rewrite <- app_assoc.
      split; [done|]. split; [lia|]. split; [done|].
      destruct (applyTeamChanges client teamId changes s1).1 as [e|].
      - destruct Hres as (Hne & before & -> & Hbefore).
        split; [done|]. exists (err :: before). split; [done|]. by constructor.
      - destruct Hres as [Hl Hall]. split; [by rewrite Hl|by constructor]. }
    destruct err as [e|].
    + case_bool_decide as Hconf.
      * exists [Some e]. cbn [length take serve zip_with]. rewrite Hd. simpl.
        split; [by destruct changes|]. split; [lia|]. split; [done|].
        split; [done|]. exists []. split; [done|constructor].
      * subst e. apply Hgo. by right.
    + apply Hgo. by left.
Qed.

(** While the answers are nil or [409 Conflict], the loop goes on. *)
Lemma applyTeamChanges_tolerated_prefix (teamId : Z) :
  ∀ (pre rest : list UserTeamChange) (s : Remote W) answers w1,
  serve client teamId pre (world s) = (answers, w1) →
  Forall tolerated answers →
  applyTeamChanges client teamId (pre ++ rest) s =
    applyTeamChanges client teamId rest
      {| world := w1; trace := trace s ++ zip_with (issued teamId) pre answers |}.
Proof.
  induction pre as [|c pre IH]; intros rest s answers w1 Hserve Htol.
  - simpl in Hserve. inversion Hserve; subst. simpl. rewrite app_nil_r. by destruct s.
  - simpl in Hserve.
    destruct (dispatch client teamId c (world s)) as [err w] eqn:Hd.
    destruct (serve client teamId pre w) as [answers' w'] eqn:Hpre.
    inversion Hserve; subst. apply Forall_cons in Htol as [Herr Htol].
    rewrite <- app_comm_cons. cbn [applyTeamChanges]. unfold bind.
    rewrite dispatch_call, Hd. cbn [fst snd].
    set (s1 := {| world := w; trace := trace s ++ [issued teamId c err] |}).
    assert (applyTeamChanges client teamId (pre ++ rest) s1 =
            applyTeamChanges client teamId rest
              {| world := w1;
                 trace := trace s ++ zip_with (issued teamId) (c :: pre) (err :: answers') |})
      as Hnext.
    { rewrite (IH rest s1 answers' w1 Hpre Htol). simpl. by rewrite <- app_assoc. }
    destruct Herr as [->| ->]; [exact Hnext|].
    rewrite bool_decide_false by (intros Hne; by apply Hne). exact Hnext.
Qed.

Lemma applyTeamChanges_update_as_add (teamId : Z) :
  ∀ (changes : list UserTeamChange) (s : Remote W),
  applyTeamChanges client teamId (update_as_add <$> changes) s =
  applyTeamChanges client teamId changes s.
Proof.
  induction changes as [|c changes IH]; intros s; [done|].
  rewrite fmap_cons. cbn [applyTeamChanges]. unfold bind.
  assert (match Type_ (update_as_add c) with
          | Add | Update => call_AddTeamMember client teamId (Id (User (update_as_add c)))
          | Remove => call_RemoveMemberFromTeam client teamId (Id (User (update_as_add c)))
          end s =
          match Type_ c with
          | Add | Update => call_AddTeamMember client teamId (Id (User c))
          | Remove => call_RemoveMemberFromTeam client teamId (Id (User c))
          end s) as ->.
  { unfold update_as_add. by destruct (Type_ c) eqn:Ht; simpl; rewrite ?Ht. }
  destruct (match Type_ c with
            | Add | Update => call_AddTeamMember client teamId (Id (User c))
            | Remove => call_RemoveMemberFromTeam client teamId (Id (User c))
            end s) as [[e|] s1]; [|apply IH].
  case_bool_decide; [done|apply IH].
Qed.

End ApplierFacts.

(** ** Error messages *)

Lemma prefix_append (s q : string) : String.prefix s (s +:+ q) = true.
Proof.
  induction s as [|a s IH]; simpl; [by destruct q|].
  destruct (Ascii.ascii_dec a a); [exact IH|done].
Qed.

Lemma mentions_unfold (s t : string) :
  mentions s t =
    String.prefix s t || match t with EmptyString => false | String _ t' => mentions s t' end.
Proof. by destruct t. Qed.

Lemma mentions_append (p s q : string) : mentions s (p +:+ s +:+ q) = true.
Proof.
  induction p as [|a p IH].
  - change (EmptyString +:+ s +:+ q) with (s +:+ q).
    by rewrite mentions_unfold, prefix_append.
  - change (String a p +:+ s +:+ q) with (String a (p +:+ s +:+ q)).
    rewrite mentions_unfold, IH. apply orb_true_r.
Qed.

Lemma unknown_user_error_mentions email :
  mentions email (unknown_user_error email) = true.
Proof. apply mentions_append. Qed.

Lemma duplicate_user_error_mentions email :
  mentions email (duplicate_user_error email) = true.
Proof. apply mentions_append. Qed.

(** ** The claims on the resolver *)

Section ResolverClaims.

Context {W : Type}.
Variable client : gapi.Client W.
Variable createUser : string → W → (Z * option error) * W.

(** Without [create_users] the loop makes no call. *)
Lemma addIds_list_no_create gUserMap : ∀ todo output (s : Remote W),
  (addIds_list createUser gUserMap false todo output s).2 = s.
Proof.
  induction todo as [|c todo IH]; intros output s; simpl; [done|].
  destruct (gUserMap !! Email (User c)); [apply IH|done].
Qed.

(** C3: when [Users] has listed the directory, [create_users] is off and
    the key of some change is not in the listing, [addIdsToTeamChanges]
    returns a nil slice and the error that names the key of the first
    such change; it calls nothing but [Users]. *)
Theorem addIdsToTeamChanges_unknown_user_fails
    (d : ResourceData) (changes : list UserTeamChange) (s : Remote W) gUsers w :
  gapi.Users client (world s) = ((gUsers, None), w) →
  create_users d = false →
  Exists (λ c, build_gUserMap gUsers !! Email (User c) = None) changes →
  ∃ pre c post,
    changes = pre ++ c :: post ∧
    Forall (λ c, is_Some (build_gUserMap gUsers !! Email (User c))) pre ∧
    build_gUserMap gUsers !! Email (User c) = None ∧
    addIdsToTeamChanges client createUser d changes s =
      (([], Some (unknown_user_error (Email (User c)))),
       {| world := w; trace := trace s ++ [CallUsers gUsers None] |}) ∧
    mentions (Email (User c)) (unknown_user_error (Email (User c))) = true.
Proof.
  intros HU Hcreate Hex.
  rewrite (addIdsToTeamChanges_list _ _ _ _ _ _ _ HU), Hcreate.
  set (s1 := {| world := w; trace := trace s ++ [CallUsers gUsers None] |}).
  pose proof (addIds_list_no_create (build_gUserMap gUsers) changes [] s1) as Hs.
  destruct (addIds_list createUser (build_gUserMap gUsers) false changes [] s1)
    as [[out err] s'] eqn:Hrun.
  simpl in Hs. subst s'.
  apply addIds_list_spec in Hrun as (evs & _ & _ & Hnone & Hres).
  rewrite (Hnone eq_refl) in Hres. clear Hnone evs.
  destruct err as [e|].
  - destruct Hres as (-> & pre & c & post & -> & Hc & -> & Hpre).
    exists pre, c, post. repeat split; try done. apply unknown_user_error_mentions.
  - exfalso. destruct Hres as (res & _ & Hres).
    apply Exists_exists in Hex as (c & Hin & Hc).
    apply list_elem_of_lookup in Hin as [i Hi].
    destruct (Forall2_lookup_l _ _ _ _ _ Hres Hi) as (c' & _ & id & _ & Hid).
    destruct Hid as [Hid|[_ Hev]]; [congruence|].
    by apply elem_of_nil in Hev.
Qed.


(** C10: when [addIdsToTeamChanges] succeeds, the slice it returns is as
    long as the one it was given and holds, at every position, a change
    of the same type for the same key, which differs at most in its id. *)
Theorem addIdsToTeamChanges_keeps_type_and_key
    (d : ResourceData) (changes output : list UserTeamChange) (s s' : Remote W) :
  addIdsToTeamChanges client createUser d changes s = ((output, None), s') →
  length output = length changes ∧
  Forall2 (λ c c', Type_ c' = Type_ c ∧ Email (User c') = Email (User c) ∧
                   c' = set_User_Id c (Id (User c')))
          changes output.
Proof.
  intros Hrun.
  destruct (gapi.Users client (world s)) as [[gUsers [e|]] w] eqn:HU.
  { by rewrite (addIdsToTeamChanges_Users_error _ _ _ _ _ _ _ _ HU) in Hrun. }
  rewrite (addIdsToTeamChanges_list _ _ _ _ _ _ _ HU) in Hrun.
  apply addIds_list_spec in Hrun as (evs & _ & _ & _ & res & -> & Hres).
  simpl. assert (Forall2 (λ c c', Type_ c' = Type_ c ∧ Email (User c') = Email (User c) ∧
                                  c' = set_User_Id c (Id (User c'))) changes res) as Hall.
  { eapply Forall2_impl; [exact Hres|]. by intros c c' (id & -> & _). }
  split; [symmetry; by eapply Forall2_length|done].
Qed.

End ResolverClaims.

(** ** The claims on [collectTeamUsers] *)

(** C4 (amended): when a key is listed twice among the previous members,
    or the previous members are duplicate-free and a key is listed twice
    among the desired ones, [collectTeamUsers] returns two nil maps and an
    error that names the first key of that list that repeats an earlier
    one. The message does not say in which of the two lists this was. *)
Theorem collectTeamUsers_duplicate_fails (d : ResourceData) :
  ¬ NoDup (users_state d) ∨ ¬ NoDup (users_config d) →
  ∃ pre k post,
    (users_state d = pre ++ k :: post ∨
     (NoDup (users_state d) ∧ users_config d = pre ++ k :: post)) ∧
    NoDup pre ∧ k ∈ pre ∧
    collectTeamUsers d = (∅, ∅, Some (duplicate_user_error k)) ∧
    mentions k (duplicate_user_error k) = true.
Proof.
  intros Hdup. unfold collectTeamUsers, GetChange_users.
  destruct (collect_loop (users_state d) ∅) as [ms|e] eqn:Hs.
  - apply collect_loop_inl in Hs as (Hnds & _ & _).
    destruct Hdup as [Hdup|Hdup]; [done|].
    destruct (collect_loop_dup _ Hdup) as [e He]. rewrite He.
    apply collect_loop_inr in He as (pre & k & post & Hus & -> & Hnd & _ & Hk).
    exists pre, k, post. split; [by right|]. split; [done|]. split.
    { destruct Hk as [Hk|[u Hu]]; [done|]. by rewrite lookup_empty in Hu. }
    split; [done|]. apply duplicate_user_error_mentions.
  - apply collect_loop_inr in Hs as (pre & k & post & Hus & -> & Hnd & _ & Hk).
    exists pre, k, post. split; [by left|]. split; [done|]. split.
    { destruct Hk as [Hk|[u Hu]]; [done|]. by rewrite lookup_empty in Hu. }
    split; [done|]. apply duplicate_user_error_mentions.
Qed.

Lemma collectTeamUsers_duplicate_fails_witness :
  ¬ NoDup (users_config Sim.d_dup_config) ∧
  ∃ pre k post,
    (users_state Sim.d_dup_config = pre ++ k :: post ∨
     (NoDup (users_state Sim.d_dup_config) ∧
      users_config Sim.d_dup_config = pre ++ k :: post)) ∧
    NoDup pre ∧ k ∈ pre ∧
    collectTeamUsers Sim.d_dup_config = (∅, ∅, Some (duplicate_user_error k)) ∧
    mentions k (duplicate_user_error k) = true.
Proof.
  assert (¬ NoDup (users_config Sim.d_dup_config)) as Hdup.
  { intros Hnd. apply NoDup_cons in Hnd as [Hnotin _]. apply Hnotin. simpl. left. }
  split; [exact Hdup|].
  apply (collectTeamUsers_duplicate_fails Sim.d_dup_config). right. exact Hdup.
Defined.

(** The error for a key listed twice is the same whichever list has it. *)
Lemma collectTeamUsers_error_same_for_both_lists :
  collectTeamUsers Sim.d_dup_state =
    (∅, ∅, Some "Error: User 'a@x.com' cannot be specified multiple times.") ∧
  collectTeamUsers Sim.d_dup_config =
    (∅, ∅, Some "Error: User 'a@x.com' cannot be specified multiple times.") ∧
  users_state Sim.d_dup_state = ["a@x.com"; "a@x.com"] ∧
  users_config Sim.d_dup_state = [] ∧
  users_state Sim.d_dup_config = [] ∧
  users_config Sim.d_dup_config = ["a@x.com"; "a@x.com"].
Proof. repeat split. Qed.

(** ** The claims on the whole reconciliation *)

Lemma list_difference_all (l k : list string) :
  (∀ x, x ∈ l → x ∈ k) → list_difference l k = [].
Proof.
  intros Hsub. destruct (list_difference l k) as [|x xs] eqn:Hd; [done|].
  assert (x ∈ list_difference l k) as Hx by (rewrite Hd; left).
  apply list_elem_of_difference in Hx as [Hl Hk]. by apply Hsub in Hl.
Qed.

Lemma teamChanges_never_Update range stateUsers configUsers :
  Forall (λ c, Type_ c ≠ Update) (teamChanges range stateUsers configUsers).
Proof.
  rewrite teamChanges_omap. apply Forall_app. split; apply Forall_forall; intros c Hc;
    apply list_elem_of_omap in Hc as ([k u] & _ & Hc).
  - unfold add_if_absent in Hc. destruct (stateUsers !! Email (k, u).2); [done|].
    by inversion Hc.
  - unfold remove_if_absent in Hc. destruct (configUsers !! Email (k, u).2); [done|].
    by inversion Hc.
Qed.

Section PipelineClaims.

Variable range : gmap string TeamUser → list (string * TeamUser).
Hypothesis range_perm : ∀ m, range m ≡ₚ map_to_list m.
Variable ParseInt : string → Z.
Context {W : Type}.
Variable client : gapi.Client W.
Variable createUser : string → W → (Z * option error) * W.

(** C6: no change [teamChanges] computes has type [Update], whatever the
    two maps; and [applyTeamChanges] does with a list of changes what it
    does with the same list where every [Update] is made an [Add]: the
    same calls, the same result. When it reaches a change of type [Update]
    or [Add], all answers before being nil or [409 Conflict], the call it
    makes is the [AddTeamMember] of the client, for the team and the id of
    the change, in the state the calls before left; it returns the answer
    of this call when it is an error other than [409 Conflict] and goes on
    with the changes that follow otherwise. *)
Theorem Update_never_computed_and_applied_as_Add :
  (∀ stateUsers configUsers,
     Forall (λ c, Type_ c ≠ Update) (teamChanges range stateUsers configUsers)) ∧
  (∀ teamId changes (s : Remote W),
     applyTeamChanges client teamId changes s =
     applyTeamChanges client teamId (update_as_add <$> changes) s) ∧
  (∀ teamId u err, issued teamId {| Type_ := Update; User := u |} err =
                   CallAddTeamMember teamId (Id u) err) ∧
  (∀ t teamId pre u post (s : Remote W) answers w1,
     t = Update ∨ t = Add →
     serve client teamId pre (world s) = (answers, w1) →
     Forall tolerated answers →
     applyTeamChanges client teamId (pre ++ {| Type_ := t; User := u |} :: post) s =
       let '(err, w2) := gapi.AddTeamMember client teamId (Id u) w1 in
       let s2 := {| world := w2;
                    trace := trace s ++ zip_with (issued teamId) pre answers ++
                             [CallAddTeamMember teamId (Id u) err] |} in
       match err with
       | Some e =>
           if bool_decide (e ≠ "409 Conflict") then (Some e, s2)
           else applyTeamChanges client teamId post s2
       | None => applyTeamChanges client teamId post s2
       end).
Proof.
  split; [|split; [|split]].
  - intros. apply teamChanges_never_Update.
  - intros. symmetry. apply applyTeamChanges_update_as_add.
  - done.
  - intros t teamId pre u post s answers w1 Ht Hserve Htol.
    rewrite (applyTeamChanges_tolerated_prefix client teamId pre _ s answers w1 Hserve Htol).
    cbn [applyTeamChanges]. unfold bind. rewrite dispatch_call.
    unfold dispatch, issued. cbn [Type_ User world trace].
    assert (match t with
            | Remove => gapi.RemoveMemberFromTeam client teamId (Id u) w1
            | _ => gapi.AddTeamMember client teamId (Id u) w1
            end = gapi.AddTeamMember client teamId (Id u) w1) as -> by by destruct Ht as [->| ->].
    assert (∀ err, match t with
                   | Remove => CallRemoveMemberFromTeam teamId (Id u) err
                   | _ => CallAddTeamMember teamId (Id u) err
                   end = CallAddTeamMember teamId (Id u) err) as Hev
      by (intros; by destruct Ht as [->| ->]).
    rewrite Hev.
    destruct (gapi.AddTeamMember client teamId (Id u) w1) as [err w2].
    cbn [fst snd]. rewrite <- app_assoc.
    destruct err as [e|]; [|done]. by case_bool_decide.
Qed.

(** C7 (amended): every change [teamChanges] computes from the sets of
    [collectTeamUsers] has id 0. [addIdsToTeamChanges] leaves the slice
    it is given as it was: it writes ids to copies of the changes, which
    it returns in a slice of its own. On success the copy of a change
    carries the id the listing of [Users] has for its key or, when it has
    none, the id a [createUser] call returned for the key. *)
Theorem addIdsToTeamChanges_resolves_copies
    (d : ResourceData) (stateUsers configUsers : gmap string TeamUser) :
  collectTeamUsers d = (stateUsers, configUsers, None) →
  let changes := teamChanges range stateUsers configUsers in
  Forall (λ c, Id (User c) = 0) changes ∧
  ∀ s : Remote W, ∃ fr err s',
    addIdsToTeamChanges_frame client createUser d changes s = ((fr, err), s') ∧
    fr_changes fr = changes ∧
    addIdsToTeamChanges client createUser d changes s =
      ((match err with None => fr_output fr | Some _ => [] end, err), s') ∧
    (err = None →
     ∃ gUsers evs, trace s' = trace s ++ CallUsers gUsers None :: evs ∧
       Forall2 (resolved (build_gUserMap gUsers) evs) changes (fr_output fr)).
Proof.
  intros Heq changes.
  apply collectTeamUsers_ok in Heq as (Hnds & Hndc & Hs & Hc). split.
  - unfold changes.
    rewrite (teamChanges_member_sets range range_perm _ _ _ _ Hnds Hndc Hs Hc).
    apply Forall_app. split; apply Forall_fmap, Forall_forall; by intros.
  - intros s.
    destruct (gapi.Users client (world s)) as [[gUsers [e|]] w] eqn:HU.
    + eexists _, _, _. split.
      { apply (addIdsToTeamChanges_frame_Users_error _ _ _ _ _ _ _ _ HU). }
      split; [done|]. split; [|done].
      apply (addIdsToTeamChanges_Users_error _ _ _ _ _ _ _ _ HU).
    + destruct (addIdsToTeamChanges_frame_list client createUser d changes s gUsers w HU)
        as (fr & err & s' & Hrun & Hch & Hlist).
      exists fr, err, s'. split; [done|]. split; [done|]. split.
      { by rewrite (addIdsToTeamChanges_list _ _ _ _ _ _ _ HU). }
      intros ->. apply addIds_list_spec in Hlist as (evs & Htr & _ & _ & res & Hout & Hres).
      exists gUsers, evs. split; [by rewrite Htr; simpl; rewrite <- app_assoc|].
      simpl in Hout. by subst res.
Qed.

(** C8 (amended): when the previous members are the desired ones, as in
    the state read back after a run that succeeded, and no key is listed
    twice, [teamChanges] computes no change, and [UpdateTeamMembers] only
    lists the directory: it returns what [Users] answered and makes no
    other call. *)
Theorem UpdateTeamMembers_nothing_to_do (d : ResourceData) (s : Remote W) :
  NoDup (users_config d) → users_state d ≡ₚ users_config d →
  ∃ stateUsers configUsers,
    collectTeamUsers d = (stateUsers, configUsers, None) ∧
    teamChanges range stateUsers configUsers = [] ∧
    ∃ gUsers err w,
      gapi.Users client (world s) = ((gUsers, err), w) ∧
      UpdateTeamMembers range ParseInt client createUser d s =
        (err, {| world := w; trace := trace s ++ [CallUsers gUsers err] |}).
Proof.
  intros Hndc Hperm.
  assert (NoDup (users_state d)) as Hnds by by rewrite Hperm.
  destruct (collectTeamUsers_NoDup d Hnds Hndc) as (ms & mc & Heq & Hs & Hc).
  exists ms, mc. split; [done|].
  assert (teamChanges range ms mc = []) as Hnil.
  { apply Permutation_nil_r.
    rewrite (teamChanges_member_sets range range_perm _ _ _ _ Hnds Hndc Hs Hc).
    rewrite !list_difference_all; [done| |].
    - intros x. by rewrite Hperm.
    - intros x. by rewrite Hperm. }
  split; [done|].
  destruct (gapi.Users client (world s)) as [[gUsers err] w] eqn:HU.
  exists gUsers, err, w. split; [done|].
  unfold UpdateTeamMembers. rewrite Heq, Hnil. unfold bind.
  destruct err as [e|].
  - by rewrite (addIdsToTeamChanges_Users_error _ _ _ _ _ _ _ _ HU).
  - by rewrite (addIdsToTeamChanges_list _ _ _ _ _ _ _ HU).
Qed.

(** C9: with [u1@x.com] as the previous member, [u1@x.com] and
    [u2@x.com] as the desired ones, a directory that lists [u1@x.com]
    alone, as 100, [create_users] on and a [createUser] that makes
    [u2@x.com] as 200, [UpdateTeamMembers] makes three calls: [Users],
    [createUser] on [u2@x.com], and one [AddTeamMember] of user 200 to
    the team; it never calls [RemoveMemberFromTeam]. It returns what
    [AddTeamMember] answered, with [409 Conflict] turned into nil. *)
Theorem UpdateTeamMembers_adds_the_created_user
    (d : ResourceData) (s : Remote W) (w1 w2 : W) :
  users_state d = ["u1@x.com"] →
  users_config d = ["u1@x.com"; "u2@x.com"] →
  create_users d = true →
  gapi.Users client (world s) =
    (([{| gapi.Id := 100; gapi.Email := "u1@x.com" |}], None), w1) →
  createUser "u2@x.com" w1 = ((200, None), w2) →
  ∃ err w3,
    gapi.AddTeamMember client (ParseInt (d_Id d)) 200 w2 = (err, w3) ∧
    UpdateTeamMembers range ParseInt client createUser d s =
      (match err with
       | Some e => if bool_decide (e ≠ "409 Conflict") then Some e else None
       | None => None
       end,
       {| world := w3;
          trace := trace s ++
            [CallUsers [{| gapi.Id := 100; gapi.Email := "u1@x.com" |}] None;
             CallCreateUser "u2@x.com" 200 None;
             CallAddTeamMember (ParseInt (d_Id d)) 200 err] |}).
Proof.
  intros Hstate Hconfig Hcreate HU HC.
  assert (NoDup (users_state d)) as Hnds by (rewrite Hstate; compute_done).
  assert (NoDup (users_config d)) as Hndc by (rewrite Hconfig; compute_done).
  destruct (collectTeamUsers_NoDup d Hnds Hndc) as (ms & mc & Heq & Hs & Hc).
  assert (teamChanges range ms mc = [change_of Add "u2@x.com"]) as Hch.
  { apply Permutation_singleton_r.
    rewrite (teamChanges_member_sets range range_perm _ _ _ _ Hnds Hndc Hs Hc).
    by rewrite Hstate, Hconfig. }
  destruct (gapi.AddTeamMember client (ParseInt (d_Id d)) 200 w2) as [err w3] eqn:HA.
  exists err, w3. split; [done|].
  unfold UpdateTeamMembers. rewrite Heq, Hch. unfold bind.
  rewrite (addIdsToTeamChanges_list _ _ _ _ _ _ _ HU), Hcreate.
  cbn [addIds_list change_of unresolved User Email].
  replace (build_gUserMap [{| gapi.Id := 100; gapi.Email := "u1@x.com" |}] !! "u2@x.com")
    with (@None Z) by (symmetry; by vm_compute).
  unfold bind, call_createUser. cbn [world trace]. rewrite HC.
  cbn [addIds_list ret app]. cbn [applyTeamChanges]. unfold bind, call_AddTeamMember.
  cbn [set_User_Id change_of unresolved Type_ User Id Email world trace].
  rewrite HA. rewrite <- !app_assoc. cbn [app].
  destruct err as [e|]; [|done]. by case_bool_decide.
Qed.

End PipelineClaims.

(** ** The claims at concrete inputs, on the reference remote service *)

Lemma Sim_range_perm (m : gmap string TeamUser) : Sim.range m ≡ₚ map_to_list m.
Proof. reflexivity. Qed.

Lemma Sim_range_rev_perm (m : gmap string TeamUser) : Sim.range_rev m ≡ₚ map_to_list m.
Proof. unfold Sim.range_rev. apply reverse_Permutation. Qed.

Lemma teamChanges_exact_adds_and_removes_witness :
  NoDup (users_state Sim.d1) ∧ NoDup (users_config Sim.d1) ∧
  ∃ stateUsers configUsers,
    collectTeamUsers Sim.d1 = (stateUsers, configUsers, None) ∧
    let changes := teamChanges Sim.range_rev stateUsers configUsers in
    let P : gset string := list_to_set (users_state Sim.d1) in
    let D : gset string := list_to_set (users_config Sim.d1) in
    changes ≡ₚ (change_of Add <$> elements (D ∖ P)) ++
               (change_of Remove <$> elements (P ∖ D)) ∧
    NoDup changes ∧
    (∀ c, c ∈ changes → Email (User c) ∉ P ∩ D) ∧
    length (filter (λ c, Type_ c = Add) changes) = size (D ∖ P) ∧
    length (filter (λ c, Type_ c = Remove) changes) = size (P ∖ D) ∧
    length changes = (size (D ∖ P) + size (P ∖ D))%nat.
Proof.
  assert (NoDup (users_state Sim.d1)) as Hs by compute_done.
  assert (NoDup (users_config Sim.d1)) as Hc by compute_done.
  split; [exact Hs|]. split; [exact Hc|].
  exact (teamChanges_exact_adds_and_removes Sim.range_rev Sim_range_rev_perm Sim.d1 Hs Hc).
Defined.

Lemma addIdsToTeamChanges_unknown_user_fails_witness :
  ∃ pre c post,
    Sim.changes_u1_u2_u4 = pre ++ c :: post ∧
    Forall (λ c, is_Some (build_gUserMap (Sim.users Sim.w0) !! Email (User c))) pre ∧
    build_gUserMap (Sim.users Sim.w0) !! Email (User c) = None ∧
    addIdsToTeamChanges Sim.client Sim.createUser Sim.d1_no_create
        Sim.changes_u1_u2_u4 (Sim.start Sim.w0) =
      (([], Some (unknown_user_error (Email (User c)))),
       {| world := Sim.w0;
          trace := trace (Sim.start Sim.w0) ++ [CallUsers (Sim.users Sim.w0) None] |}) ∧
    mentions (Email (User c)) (unknown_user_error (Email (User c))) = true.
Proof.
  apply (addIdsToTeamChanges_unknown_user_fails Sim.client Sim.createUser
           Sim.d1_no_create Sim.changes_u1_u2_u4 (Sim.start Sim.w0)
           (Sim.users Sim.w0) Sim.w0).
  - reflexivity.
  - reflexivity.
  - apply Exists_cons_tl, Exists_cons_hd. vm_compute. reflexivity.
Defined.



Lemma addIdsToTeamChanges_keeps_type_and_key_witness :
  length [{| Type_ := Remove; User := {| Id := 100; Email := "u1@x.com" |} |};
          {| Type_ := Add; User := {| Id := 200; Email := "u2@x.com" |} |};
          {| Type_ := Add; User := {| Id := 201; Email := "u4@x.com" |} |}] =
    length Sim.changes_u1_u2_u4 ∧
  Forall2 (λ c c', Type_ c' = Type_ c ∧ Email (User c') = Email (User c) ∧
                   c' = set_User_Id c (Id (User c')))
    Sim.changes_u1_u2_u4
    [{| Type_ := Remove; User := {| Id := 100; Email := "u1@x.com" |} |};
     {| Type_ := Add; User := {| Id := 200; Email := "u2@x.com" |} |};
     {| Type_ := Add; User := {| Id := 201; Email := "u4@x.com" |} |}].
Proof.
  eapply (addIdsToTeamChanges_keeps_type_and_key Sim.client Sim.createUser
            Sim.d1 Sim.changes_u1_u2_u4 _ (Sim.start Sim.w0)).
  vm_compute. reflexivity.
Defined.

Lemma addIdsToTeamChanges_resolves_copies_witness :
  ∃ stateUsers configUsers,
    collectTeamUsers Sim.d0 = (stateUsers, configUsers, None) ∧
    let changes := teamChanges Sim.range stateUsers configUsers in
    Forall (λ c, Id (User c) = 0) changes ∧
    ∀ s : Remote Sim.World, ∃ fr err s',
      addIdsToTeamChanges_frame Sim.client Sim.createUser Sim.d0 changes s =
        ((fr, err), s') ∧
      fr_changes fr = changes ∧
      addIdsToTeamChanges Sim.client Sim.createUser Sim.d0 changes s =
        ((match err with None => fr_output fr | Some _ => [] end, err), s') ∧
      (err = None →
       ∃ gUsers evs, trace s' = trace s ++ CallUsers gUsers None :: evs ∧
         Forall2 (resolved (build_gUserMap gUsers) evs) changes (fr_output fr)).
Proof.
  eexists _, _. split; [reflexivity|].
  apply (addIdsToTeamChanges_resolves_copies Sim.range Sim_range_perm
           Sim.client Sim.createUser Sim.d0).
  reflexivity.
Defined.

(** The changes handed to [addIdsToTeamChanges] keep id 0 when it has
    returned, and the id in the copy it returns is the one the directory
    lists, be it 0. *)
Lemma addIdsToTeamChanges_argument_not_written :
  (let '(stateUsers, configUsers, _) := collectTeamUsers Sim.d_u1 in
   teamChanges Sim.range stateUsers configUsers) = Sim.changes_u1 ∧
  (addIdsToTeamChanges_frame Sim.client Sim.createUser Sim.d_u1 Sim.changes_u1
     (Sim.start Sim.w0)).1 =
    ({| fr_changes := [{| Type_ := Add; User := {| Id := 0; Email := "u1@x.com" |} |}];
        fr_output := [{| Type_ := Add; User := {| Id := 100; Email := "u1@x.com" |} |}] |},
     None) ∧
  (addIdsToTeamChanges Sim.client Sim.createUser Sim.d_u1 Sim.changes_u1
     (Sim.start Sim.w0_zero)).1 =
    ([{| Type_ := Add; User := {| Id := 0; Email := "u1@x.com" |} |}], None).
Proof. repeat split. Qed.

Lemma UpdateTeamMembers_nothing_to_do_witness :
  ∃ stateUsers configUsers,
    collectTeamUsers Sim.d0_applied = (stateUsers, configUsers, None) ∧
    teamChanges Sim.range_rev stateUsers configUsers = [] ∧
    ∃ gUsers err w,
      gapi.Users Sim.client (world (Sim.start Sim.w0)) = ((gUsers, err), w) ∧
      UpdateTeamMembers Sim.range_rev Sim.ParseInt Sim.client Sim.createUser
          Sim.d0_applied (Sim.start Sim.w0) =
        (err, {| world := w;
                 trace := trace (Sim.start Sim.w0) ++ [CallUsers gUsers err] |}).
Proof.
  apply (UpdateTeamMembers_nothing_to_do Sim.range_rev Sim_range_rev_perm Sim.ParseInt
           Sim.client Sim.createUser Sim.d0_applied (Sim.start Sim.w0)).
  - compute_done.
  - apply perm_swap.
Defined.

(** A second run on the same previous and desired members computes the
    same change as the first and calls [AddTeamMember] again. *)
Lemma UpdateTeamMembers_same_sets_same_changes :
  let run1 := UpdateTeamMembers Sim.range Sim.ParseInt Sim.client Sim.createUser
                Sim.d0 (Sim.start Sim.w0) in
  let run2 := UpdateTeamMembers Sim.range Sim.ParseInt Sim.client Sim.createUser
                Sim.d0 (Sim.start (world run1.2)) in
  run1.1 = None ∧
  trace run1.2 =
    [CallUsers [{| gapi.Id := 100; gapi.Email := "u1@x.com" |}] None;
     CallCreateUser "u2@x.com" 200 None;
     CallAddTeamMember 7 200 None] ∧
  (let '(stateUsers, configUsers, _) := collectTeamUsers Sim.d0 in
   teamChanges Sim.range stateUsers configUsers) = Sim.changes_u2 ∧
  run2.1 = None ∧
  trace run2.2 =
    [CallUsers [{| gapi.Id := 100; gapi.Email := "u1@x.com" |};
                {| gapi.Id := 200; gapi.Email := "u2@x.com" |}] None;
     CallAddTeamMember 7 200 (Some "409 Conflict")].
Proof. repeat split. Qed.

Lemma UpdateTeamMembers_adds_the_created_user_witness :
  ∃ err w3,
    gapi.AddTeamMember Sim.client (Sim.ParseInt (d_Id Sim.d0)) 200
      (Sim.createUser "u2@x.com" Sim.w0).2 = (err, w3) ∧
    UpdateTeamMembers Sim.range_rev Sim.ParseInt Sim.client Sim.createUser
        Sim.d0 (Sim.start Sim.w0) =
      (match err with
       | Some e => if bool_decide (e ≠ "409 Conflict") then Some e else None
       | None => None
       end,
       {| world := w3;
          trace := trace (Sim.start Sim.w0) ++
            [CallUsers [{| gapi.Id := 100; gapi.Email := "u1@x.com" |}] None;
             CallCreateUser "u2@x.com" 200 None;
             CallAddTeamMember (Sim.ParseInt (d_Id Sim.d0)) 200 err] |}).
Proof.
  apply (UpdateTeamMembers_adds_the_created_user Sim.range_rev Sim_range_rev_perm
           Sim.ParseInt Sim.client Sim.createUser Sim.d0 (Sim.start Sim.w0) Sim.w0).
  - reflexivity.
  - reflexivity.
  - reflexivity.
  - reflexivity.
  - reflexivity.
Defined.

(** * Further properties *)

(** ** The membership sets and the differ *)

Lemma member_set_unique us (m1 m2 : gmap string TeamUser) :
  member_set us m1 → member_set us m2 → m1 = m2.
Proof. intros H1 H2. apply map_eq. intros k. by rewrite H1, H2. Qed.

Lemma member_set_Permutation us us' (m : gmap string TeamUser) :
  us ≡ₚ us' → member_set us m → member_set us' m.
Proof.
  intros Hperm Hm k. rewrite Hm.
  destruct (decide (k ∈ us)) as [Hin|Hnotin].
  - rewrite decide_True; [done|]. by rewrite <- Hperm.
  - rewrite decide_False; [done|]. by rewrite <- Hperm.
Qed.

Lemma collectTeamUsers_member_sets
    (d : ResourceData) (stateUsers configUsers : gmap string TeamUser) :
  collectTeamUsers d = (stateUsers, configUsers, None) ↔
  NoDup (users_state d) ∧ NoDup (users_config d) ∧
  member_set (users_state d) stateUsers ∧ member_set (users_config d) configUsers.
Proof.
  split.
  - intros Heq. by apply collectTeamUsers_ok in Heq.
  - intros (Hnds & Hndc & Hs & Hc).
    destruct (collectTeamUsers_NoDup d Hnds Hndc) as (ms & mc & Heq & Hms & Hmc).
    rewrite Heq.
    assert (ms = stateUsers) as -> by by eapply member_set_unique.
    assert (mc = configUsers) as -> by by eapply member_set_unique.
    done.
Qed.

(** X1: [collectTeamUsers] returns without error exactly when neither list
    names a user twice, and the two maps it then returns hold the listed
    users and no other, each with id 0 under its own email. *)
Theorem collectTeamUsers_succeeds_iff_no_duplicate
    (d : ResourceData) (stateUsers configUsers : gmap string TeamUser) :
  collectTeamUsers d = (stateUsers, configUsers, None) ↔
  NoDup (users_state d) ∧ NoDup (users_config d) ∧
  (∀ k, stateUsers !! k =
        if decide (k ∈ users_state d) then Some {| Id := 0; Email := k |} else None) ∧
  (∀ k, configUsers !! k =
        if decide (k ∈ users_config d) then Some {| Id := 0; Email := k |} else None).
Proof. apply collectTeamUsers_member_sets. Qed.

(** X2: the order in which the users are listed is of no consequence:
    two inputs whose lists of previous members, and of desired members,
    are duplicate-free rearrangements of each other give the same maps. *)
Theorem collectTeamUsers_order_irrelevant (d d' : ResourceData) :
  NoDup (users_state d) → NoDup (users_config d) →
  users_state d ≡ₚ users_state d' → users_config d ≡ₚ users_config d' →
  collectTeamUsers d' = collectTeamUsers d ∧
  ∃ stateUsers configUsers, collectTeamUsers d = (stateUsers, configUsers, None).
Proof.
  intros Hnds Hndc Hps Hpc.
  destruct (collectTeamUsers_NoDup d Hnds Hndc) as (ms & mc & Heq & Hms & Hmc).
  assert (NoDup (users_state d')) as Hnds' by by rewrite <- Hps.
  assert (NoDup (users_config d')) as Hndc' by by rewrite <- Hpc.
  destruct (collectTeamUsers_NoDup d' Hnds' Hndc') as (ms' & mc' & Heq' & Hms' & Hmc').
  split; [|by exists ms, mc]. rewrite Heq, Heq'.
  assert (ms' = ms) as ->.
  { eapply member_set_unique; [exact Hms'|]. by eapply member_set_Permutation. }
  assert (mc' = mc) as ->.
  { eapply member_set_unique; [exact Hmc'|]. by eapply member_set_Permutation. }
  done.
Qed.

Lemma omap_add_if_absent_types stateUsers l :
  Forall (λ c, Type_ c = Add) (omap (add_if_absent stateUsers) l).
Proof.
  apply Forall_forall. intros c ([k u] & _ & Hc)%list_elem_of_omap.
  unfold add_if_absent in Hc. destruct (stateUsers !! Email (k, u).2); [done|].
  by inversion Hc.
Qed.

Lemma omap_remove_if_absent_types configUsers l :
  Forall (λ c, Type_ c = Remove) (omap (remove_if_absent configUsers) l).
Proof.
  apply Forall_forall. intros c ([k u] & _ & Hc)%list_elem_of_omap.
  unfold remove_if_absent in Hc. destruct (configUsers !! Email (k, u).2); [done|].
  by inversion Hc.
Qed.

Lemma omap_length_le {A B} (f : A → option B) (l : list A) :
  (length (omap f l) ≤ length l)%nat.
Proof.
  induction l as [|a l IH]; [done|]. change (omap f l) with (list_omap A B f l) in IH.
  simpl. destruct (f a); simpl; lia.
Qed.

(** X3: in the list [teamChanges] returns every [Add] comes before every
    [Remove], whatever the two maps and the order of Go's [range]: the list
    is a run of [Add]s, at most one per entry of the desired map, followed
    by a run of [Remove]s, at most one per entry of the previous map. *)
Theorem teamChanges_adds_before_removes
    (range : gmap string TeamUser → list (string * TeamUser))
    (stateUsers configUsers : gmap string TeamUser) :
  ∃ adds removes,
    teamChanges range stateUsers configUsers = adds ++ removes ∧
    Forall (λ c, Type_ c = Add) adds ∧
    Forall (λ c, Type_ c = Remove) removes ∧
    (length adds ≤ length (range configUsers))%nat ∧
    (length removes ≤ length (range stateUsers))%nat.
Proof.
  exists (omap (add_if_absent stateUsers) (range configUsers)),
         (omap (remove_if_absent configUsers) (range stateUsers)).
  split; [apply teamChanges_omap|].
  split; [apply omap_add_if_absent_types|].
  split; [apply omap_remove_if_absent_types|].
  split; apply omap_length_le.
Qed.

Lemma patch_adds : ∀ (l : list UserTeamChange) (keys : gset string),
  Forall (λ c, Type_ c = Add) l →
  patch keys l = keys ∪ list_to_set ((λ c, Email (User c)) <$> l).
Proof.
  induction l as [|c l IH]; intros keys Hall.
  - simpl. apply set_eq. intros x.
    rewrite elem_of_union, elem_of_empty. tauto.
  - apply Forall_cons in Hall as [Hc Hall]. unfold patch in *. simpl. rewrite Hc.
    rewrite IH by done. apply set_eq. intros x.
    rewrite !elem_of_union, elem_of_singleton. tauto.
Qed.

Lemma patch_removes : ∀ (l : list UserTeamChange) (keys : gset string),
  Forall (λ c, Type_ c = Remove) l →
  patch keys l = keys ∖ list_to_set ((λ c, Email (User c)) <$> l).
Proof.
  induction l as [|c l IH]; intros keys Hall.
  - simpl. apply set_eq. intros x.
    rewrite elem_of_difference, elem_of_empty. tauto.
  - apply Forall_cons in Hall as [Hc Hall]. unfold patch in *. simpl. rewrite Hc.
    rewrite IH by done. apply set_eq. intros x.
    rewrite !elem_of_difference, elem_of_union, elem_of_singleton. tauto.
Qed.

Section DifferMore.

Variable range : gmap string TeamUser → list (string * TeamUser).
Hypothesis range_perm : ∀ m, range m ≡ₚ map_to_list m.

Lemma teamChanges_halves state config stateUsers configUsers :
  NoDup state → NoDup config →
  member_set state stateUsers → member_set config configUsers →
  omap (add_if_absent stateUsers) (range configUsers) ≡ₚ
    change_of Add <$> list_difference config state ∧
  omap (remove_if_absent configUsers) (range stateUsers) ≡ₚ
    change_of Remove <$> list_difference state config.
Proof.
  intros Hnds Hndc Hs Hc. rewrite !range_perm.
  rewrite (member_set_to_list _ _ Hndc Hc), (member_set_to_list _ _ Hnds Hs).
  rewrite (omap_member_set Add stateUsers _ config state Hs) by done.
  rewrite (omap_member_set Remove configUsers _ state config Hc) by done.
  done.
Qed.

(** X4: the changes [teamChanges] computes turn the previous members into
    the desired ones: starting from the keys of the previous list and
    adding the key of every [Add], removing the key of every [Remove], in
    the order of the list, one ends with the keys of the desired list. *)
Theorem teamChanges_patches_previous_into_desired (d : ResourceData) :
  NoDup (users_state d) → NoDup (users_config d) →
  ∃ stateUsers configUsers,
    collectTeamUsers d = (stateUsers, configUsers, None) ∧
    patch (list_to_set (users_state d)) (teamChanges range stateUsers configUsers) =
      list_to_set (users_config d).
Proof.
  intros Hnds Hndc.
  destruct (collectTeamUsers_NoDup d Hnds Hndc) as (ms & mc & Heq & Hs & Hc).
  exists ms, mc. split; [done|].
  destruct (teamChanges_halves _ _ _ _ Hnds Hndc Hs Hc) as [Hadds Hremoves].
  rewrite teamChanges_omap. unfold patch. rewrite foldl_app. fold (patch).
  rewrite (patch_removes (omap (remove_if_absent mc) (range ms)))
    by apply omap_remove_if_absent_types.
  rewrite (patch_adds (omap (add_if_absent ms) (range mc)))
    by apply omap_add_if_absent_types.
  apply set_eq. intros x.
  rewrite elem_of_difference, elem_of_union, !elem_of_list_to_set.
  rewrite Hadds, Hremoves, <- !list_fmap_compose.
  assert (∀ t (l : list string), (λ c, Email (User c)) ∘ change_of t <$> l = l) as Hkeys.
  { intros t l. induction l as [|k l IH]; [done|]. simpl. by f_equal. }
  rewrite !Hkeys, !list_elem_of_difference.
  destruct (decide (x ∈ users_state d)), (decide (x ∈ users_config d)); tauto.
Qed.

(** X5: exchanging the previous and the desired members exchanges the
    [Add]s and the [Remove]s: up to their order, the changes from desired
    to previous are those from previous to desired with the opposite
    type. *)
Theorem teamChanges_exchange (d : ResourceData) :
  NoDup (users_state d) → NoDup (users_config d) →
  ∃ stateUsers configUsers,
    collectTeamUsers d = (stateUsers, configUsers, None) ∧
    collectTeamUsers {| d_Id := d_Id d; users_state := users_config d;
                        users_config := users_state d;
                        create_users := create_users d |} =
      (configUsers, stateUsers, None) ∧
    teamChanges range configUsers stateUsers ≡ₚ
      retype opposite <$> teamChanges range stateUsers configUsers.
Proof.
  intros Hnds Hndc.
  destruct (collectTeamUsers_NoDup d Hnds Hndc) as (ms & mc & Heq & Hs & Hc).
  exists ms, mc. split; [done|]. split.
  - apply collectTeamUsers_member_sets. done.
  - rewrite (teamChanges_member_sets range range_perm _ _ _ _ Hndc Hnds Hc Hs).
    rewrite (teamChanges_member_sets range range_perm _ _ _ _ Hnds Hndc Hs Hc).
    rewrite fmap_app, <- !list_fmap_compose.
    rewrite (Permutation_app_comm (change_of Add <$> _)).
    done.
Qed.

End DifferMore.

(** ** The resolver *)

Lemma build_gUserMap_from (gUsers : list gapi.User) : ∀ (m : gmap string Z) (k : string),
  foldl (λ gUserMap u, <[gapi.Email u := gapi.Id u]> gUserMap) m gUsers !! k =
    match last (filter (λ u, gapi.Email u = k) gUsers) with
    | Some u => Some (gapi.Id u)
    | None => m !! k
    end.
Proof.
  induction gUsers as [|u gUsers IH]; intros m k; [done|].
  simpl. rewrite IH. rewrite filter_cons.
  destruct (decide (gapi.Email u = k)) as [Hk|Hk].
  - destruct (filter (λ u, gapi.Email u = k) gUsers) as [|u' l] eqn:Hf.
    + simpl. rewrite <- Hk. apply lookup_insert_eq.
    + rewrite last_cons_cons. destruct (last (u' :: l)) eqn:Hl; [done|].
      by apply last_None in Hl.
  - destruct (last (filter (λ u, gapi.Email u = k) gUsers)); [done|].
    by apply lookup_insert_ne.
Qed.

(** X6: the id the snapshot gives for an email is that of the last user
    of the listing with this email, and there is none when the listing has
    no such user: of two users with the same email the later one counts. *)
Theorem build_gUserMap_last_listed (gUsers : list gapi.User) (k : string) :
  build_gUserMap gUsers !! k =
    gapi.Id <$> last (filter (λ u, gapi.Email u = k) gUsers).
Proof.
  unfold build_gUserMap. rewrite build_gUserMap_from, lookup_empty.
  by destruct (last (filter (λ u, gapi.Email u = k) gUsers)).
Qed.

Section ResolverMore.

Context {W : Type}.
Variable client : gapi.Client W.
Variable createUser : string → W → (Z * option error) * W.

Lemma addIds_list_all_known gUserMap create : ∀ todo output (s : Remote W),
  Forall (λ c, is_Some (gUserMap !! Email (User c))) todo →
  addIds_list createUser gUserMap create todo output s =
    ((output ++ (resolve_known gUserMap <$> todo), None), s).
Proof.
  induction todo as [|c todo IH]; intros output s Hall; simpl.
  - by rewrite app_nil_r.
  - apply Forall_cons in Hall as [[id Hid] Hall].
    rewrite Hid, IH by done. unfold resolve_known at 2. rewrite Hid. simpl.
    by rewrite <- app_assoc.
Qed.

(** X7: when the listing of [Users] has every key of the changes,
    [addIdsToTeamChanges] succeeds whether [create_users] is on or off, it
    calls nothing but [Users], and it returns the changes in their order,
    each with the id listed for its key. *)
Theorem addIdsToTeamChanges_all_known
    (d : ResourceData) (changes : list UserTeamChange) (s : Remote W) gUsers w :
  gapi.Users client (world s) = ((gUsers, None), w) →
  Forall (λ c, is_Some (build_gUserMap gUsers !! Email (User c))) changes →
  addIdsToTeamChanges client createUser d changes s =
    ((resolve_known (build_gUserMap gUsers) <$> changes, None),
     {| world := w; trace := trace s ++ [CallUsers gUsers None] |}).
Proof.
  intros HU Hall. rewrite (addIdsToTeamChanges_list _ _ _ _ _ _ _ HU).
  by rewrite addIds_list_all_known.
Qed.

Lemma unknown_keys_cons gUserMap c changes :
  unknown_keys gUserMap (c :: changes) =
    match gUserMap !! Email (User c) with
    | Some _ => unknown_keys gUserMap changes
    | None => Email (User c) :: unknown_keys gUserMap changes
    end.
Proof.
  unfold unknown_keys. rewrite fmap_cons, filter_cons.
  destruct (gUserMap !! Email (User c)) eqn:Hc.
  - by rewrite decide_False.
  - by rewrite decide_True.
Qed.

Lemma addIds_list_creates gUserMap : ∀ todo output (s : Remote W) out err s',
  addIds_list createUser gUserMap true todo output s = ((out, err), s') →
  ∃ answers : list (Z * option error),
    trace s' = trace s ++ zip_with created (unknown_keys gUserMap todo) answers ∧
    (length answers ≤ length (unknown_keys gUserMap todo))%nat ∧
    match err with
    | None => length answers = length (unknown_keys gUserMap todo) ∧
              Forall (λ a, a.2 = None) answers
    | Some e => ∃ before id, answers = before ++ [(id, Some e)] ∧
                             Forall (λ a, a.2 = None) before
    end.
Proof.
  induction todo as [|c todo IH]; intros output s out err s' Hrun; simpl in Hrun.
  - inversion Hrun; subst. exists []. simpl. rewrite app_nil_r.
    repeat split; constructor.
  - rewrite unknown_keys_cons.
    destruct (gUserMap !! Email (User c)) as [id|] eqn:Hid; [by apply IH in Hrun|].
    unfold bind in Hrun.
    destruct (call_createUser createUser (Email (User c)) s) as [[id cerr] s1] eqn:Hcall.
    assert (trace s1 = trace s ++ [created (Email (User c)) (id, cerr)]) as Hs1.
    { unfold call_createUser in Hcall.
      destruct (createUser (Email (User c)) (world s)) as [[id' cerr'] w'].
      by inversion Hcall. }
    destruct cerr as [e|].
    + inversion Hrun; subst. exists [(id, Some e)]. simpl.
      split; [by rewrite Hs1; destruct (unknown_keys gUserMap todo)|].
      split; [lia|]. exists [], id. split; [done|constructor].
    + apply IH in Hrun as (answers & Htr & Hlen & Hres).
      exists ((id, None) :: answers). simpl.
      split; [by rewrite Htr, Hs1, <- app_assoc|]. split; [lia|].
      destruct err as [e|].
      * destruct Hres as (before & id' & -> & Hbefore).
        exists ((id, None) :: before), id'. split; [done|]. by constructor.
      * destruct Hres as [Hl Hall]. split; [by rewrite Hl|by constructor].
Qed.

(** X8: with [create_users] on, [addIdsToTeamChanges] calls [createUser]
    for the keys the listing lacks, in the order of the changes and once
    for every change with such a key, also when the same key comes twice.
    On success it has done so for all of them and every call succeeded; on
    failure the last call made is the one that failed. *)
Theorem addIdsToTeamChanges_creates_in_order
    (d : ResourceData) (changes : list UserTeamChange) (s : Remote W) gUsers w :
  gapi.Users client (world s) = ((gUsers, None), w) →
  create_users d = true →
  ∃ answers : list (Z * option error),
    trace (addIdsToTeamChanges client createUser d changes s).2 =
      trace s ++ CallUsers gUsers None ::
        zip_with created (unknown_keys (build_gUserMap gUsers) changes) answers ∧
    (length answers ≤ length (unknown_keys (build_gUserMap gUsers) changes))%nat ∧
    match (addIdsToTeamChanges client createUser d changes s).1.2 with
    | None => length answers = length (unknown_keys (build_gUserMap gUsers) changes) ∧
              Forall (λ a, a.2 = None) answers
    | Some e => ∃ before id, answers = before ++ [(id, Some e)] ∧
                             Forall (λ a, a.2 = None) before
    end.
Proof.
  intros HU Hcreate. rewrite (addIdsToTeamChanges_list _ _ _ _ _ _ _ HU), Hcreate.
  destruct (addIds_list createUser (build_gUserMap gUsers) true changes []
              {| world := w; trace := trace s ++ [CallUsers gUsers None] |})
    as [[out err] s'] eqn:Hrun.
  apply addIds_list_creates in Hrun as (answers & Htr & Hlen & Hres).
  exists answers. simpl in *. split; [by rewrite Htr, <- app_assoc|]. done.
Qed.

Lemma addIds_list_retype (f : ChangeType → ChangeType) gUserMap create :
  ∀ todo output (s : Remote W),
  addIds_list createUser gUserMap create (retype f <$> todo) (retype f <$> output) s =
    let r := addIds_list createUser gUserMap create todo output s in
    ((retype f <$> r.1.1, r.1.2), r.2).
Proof.
  induction todo as [|c todo IH]; intros output s; [done|].
  rewrite fmap_cons. cbn [addIds_list retype User Email].
  assert (∀ id, (retype f <$> output) ++ [set_User_Id (retype f c) id] =
                retype f <$> (output ++ [set_User_Id c id])) as Hout.
  { intros id. by rewrite fmap_app. }
  destruct (gUserMap !! Email (User c)) as [id|].
  - rewrite Hout. apply IH.
  - destruct create; [|done]. unfold bind.
    destruct (call_createUser createUser (Email (User c)) s) as [[id [e|]] s1]; [done|].
    rewrite Hout. apply IH.
Qed.

(** X9: [addIdsToTeamChanges] does not look at the type of a change.
    Given the same changes with other types it makes the same calls and
    returns the same ids and the same error: with [create_users] on, a user
    the listing lacks is made for a [Remove] as for an [Add]. *)
Theorem addIdsToTeamChanges_ignores_type
    (f : ChangeType → ChangeType)
    (d : ResourceData) (changes : list UserTeamChange) (s : Remote W) :
  addIdsToTeamChanges client createUser d (retype f <$> changes) s =
    let r := addIdsToTeamChanges client createUser d changes s in
    ((retype f <$> r.1.1, r.1.2), r.2).
Proof.
  destruct (gapi.Users client (world s)) as [[gUsers [e|]] w] eqn:HU.
  - by rewrite !(addIdsToTeamChanges_Users_error _ _ _ _ _ _ _ _ HU).
  - rewrite !(addIdsToTeamChanges_list _ _ _ _ _ _ _ HU).
    apply (addIds_list_retype f _ _ changes []).
Qed.

End ResolverMore.

(** ** The applier and the whole reconciliation *)

Lemma collectTeamUsers_duplicate (d : ResourceData) :
  ¬ NoDup (users_state d) ∨ ¬ NoDup (users_config d) →
  ∃ k, (k ∈ users_state d ∨ k ∈ users_config d) ∧
       collectTeamUsers d = (∅, ∅, Some (duplicate_user_error k)).
Proof.
  intros Hdup. unfold collectTeamUsers, GetChange_users.
  destruct (collect_loop (users_state d) ∅) as [ms|e] eqn:Hs.
  - apply collect_loop_inl in Hs as (Hnds & _ & _).
    destruct Hdup as [Hdup|Hdup]; [done|].
    destruct (collect_loop_dup _ Hdup) as [e He]. rewrite He.
    apply collect_loop_inr in He as (pre & k & post & Hus & -> & _).
    exists k. split; [|done]. right. rewrite Hus. apply elem_of_app. right. left.
  - apply collect_loop_inr in Hs as (pre & k & post & Hus & -> & _).
    exists k. split; [|done]. left. rewrite Hus. apply elem_of_app. right. left.
Qed.

Section ApplierMore.

Context {W : Type}.
Variable client : gapi.Client W.

(** X10: applying a list of changes given in two parts is applying the
    first part and then, only when that returned nil, the second part from
    the state the first left: what the first part did stays done when the
    second fails, and an error in the first part ends the run. *)
Theorem applyTeamChanges_app (teamId : Z) (l1 l2 : list UserTeamChange) (s : Remote W) :
  applyTeamChanges client teamId (l1 ++ l2) s =
    match applyTeamChanges client teamId l1 s with
    | (Some e, s1) => (Some e, s1)
    | (None, s1) => applyTeamChanges client teamId l2 s1
    end.
Proof.
  revert s. induction l1 as [|c l1 IH]; intros s; [done|].
  rewrite <- app_comm_cons. cbn [applyTeamChanges]. unfold bind.
  destruct (match Type_ c with
            | Add | Update => call_AddTeamMember client teamId (Id (User c))
            | Remove => call_RemoveMemberFromTeam client teamId (Id (User c))
            end s) as [[e|] s1]; [|apply IH].
  case_bool_decide; [done|apply IH].
Qed.

Lemma issued_targets teamId c err : targets teamId (issued teamId c err).
Proof. unfold issued. by destruct (Type_ c). Qed.

Lemma applyTeamChanges_calls (teamId : Z) : ∀ (changes : list UserTeamChange) (s : Remote W),
  ∃ answers,
    trace (applyTeamChanges client teamId changes s).2 =
      trace s ++ zip_with (issued teamId) changes answers ∧
    ((applyTeamChanges client teamId changes s).1 = None →
     length answers = length changes).
Proof.
  induction changes as [|c changes IH]; intros s.
  - exists []. simpl. by rewrite app_nil_r.
  - cbn [applyTeamChanges]. unfold bind.
    destruct (match Type_ c with
              | Add | Update => call_AddTeamMember client teamId (Id (User c))
              | Remove => call_RemoveMemberFromTeam client teamId (Id (User c))
              end s) as [err s1] eqn:Hcall.
    apply dispatch_trace in Hcall.
    assert (∃ answers,
              trace (applyTeamChanges client teamId changes s1).2 =
                trace s ++ zip_with (issued teamId) (c :: changes) answers ∧
              ((applyTeamChanges client teamId changes s1).1 = None →
               length answers = length (c :: changes))) as Hgo.
    { destruct (IH s1) as (answers & Htr & Hlen). exists (err :: answers). simpl.
      rewrite Htr, Hcall, <- app_assoc. split; [done|]. intros Hn. by rewrite Hlen. }
    destruct err as [e|]; [|exact Hgo].
    case_bool_decide; [|exact Hgo].
    exists [Some e]. simpl. rewrite Hcall. split; [by destruct changes|done].
Qed.

Lemma zip_with_issued_targets teamId changes answers :
  Forall (targets teamId) (zip_with (issued teamId) changes answers).
Proof.
  revert answers. induction changes as [|c changes IH]; intros [|a answers]; simpl;
    try constructor; [apply issued_targets|apply IH].
Qed.

End ApplierMore.

Section PipelineMore.

Variable range : gmap string TeamUser → list (string * TeamUser).
Hypothesis range_perm : ∀ m, range m ≡ₚ map_to_list m.
Variable ParseInt : string → Z.
Context {W : Type}.
Variable client : gapi.Client W.
Variable createUser : string → W → (Z * option error) * W.


(** X12: when no user is listed twice and [Users] fails,
    [UpdateTeamMembers] returns the error of [Users] and makes no other
    call, whatever the changes to make. *)
Theorem UpdateTeamMembers_Users_error
    (d : ResourceData) (s : Remote W) gUsers e w :
  NoDup (users_state d) → NoDup (users_config d) →
  gapi.Users client (world s) = ((gUsers, Some e), w) →
  UpdateTeamMembers range ParseInt client createUser d s =
    (Some e, {| world := w; trace := trace s ++ [CallUsers gUsers (Some e)] |}).
Proof.
  intros Hnds Hndc HU.
  destruct (collectTeamUsers_NoDup d Hnds Hndc) as (ms & mc & Heq & _).
  unfold UpdateTeamMembers. rewrite Heq. unfold bind.
  by rewrite (addIdsToTeamChanges_Users_error _ _ _ _ _ _ _ _ HU).
Qed.

Lemma addIds_list_success_calls gUserMap create :
  ∀ todo output (s : Remote W) out s',
  addIds_list createUser gUserMap create todo output s = ((out, None), s') →
  ∃ evs, trace s' = trace s ++ evs ∧ Forall is_CallCreateUser evs ∧
         Forall (λ ev, ¬ create_failed ev) evs.
Proof.
  induction todo as [|c todo IH]; intros output s out s' Hrun; simpl in Hrun.
  - inversion Hrun; subst. exists []. rewrite app_nil_r. repeat split; constructor.
  - destruct (gUserMap !! Email (User c)) as [id|]; [by apply IH in Hrun|].
    destruct create; [|done]. unfold bind in Hrun.
    destruct (call_createUser createUser (Email (User c)) s) as [[id cerr] s1] eqn:Hcall.
    assert (trace s1 = trace s ++ [CallCreateUser (Email (User c)) id cerr]) as Hs1.
    { unfold call_createUser in Hcall.
      destruct (createUser (Email (User c)) (world s)) as [[id' cerr'] w'].
      by inversion Hcall. }
    destruct cerr as [e|]; [done|].
    apply IH in Hrun as (evs & Htr & Hcr & Hok).
    exists (CallCreateUser (Email (User c)) id None :: evs).
    split; [by rewrite Htr, Hs1, <- app_assoc|].
    split; [by constructor|]. constructor; [by intros []|done].
Qed.

Lemma UpdateTeamMembers_trace_shape (d : ResourceData) (s : Remote W) :
  ∃ evs,
    trace (UpdateTeamMembers range ParseInt client createUser d s).2 = trace s ++ evs ∧
    (evs = [] ∨
     ∃ gUsers uerr creates applies,
       evs = CallUsers gUsers uerr :: creates ++ applies ∧
       Forall is_CallCreateUser creates ∧
       Forall (targets (ParseInt (d_Id d))) applies ∧
       (create_users d = false → creates = []) ∧
       (uerr ≠ None → creates = [] ∧ applies = []) ∧
       (Exists create_failed creates → applies = [])).
Proof.
  unfold UpdateTeamMembers.
  destruct (collectTeamUsers d) as [[ms mc] [e|]].
  { exists []. rewrite app_nil_r. split; [done|by left]. }
  unfold bind. set (changes := teamChanges range ms mc).
  destruct (gapi.Users client (world s)) as [[gUsers [e|]] w] eqn:HU.
  { rewrite (addIdsToTeamChanges_Users_error _ _ _ _ _ _ _ _ HU).
    exists [CallUsers gUsers (Some e)]. split; [done|]. right.
    exists gUsers, (Some e), [], []. repeat split; try done; constructor. }
  rewrite (addIdsToTeamChanges_list _ _ _ _ _ _ _ HU).
  destruct (addIds_list createUser (build_gUserMap gUsers) (create_users d) changes []
              {| world := w; trace := trace s ++ [CallUsers gUsers None] |})
    as [[out [e|]] s1] eqn:Hrun.
  - apply addIds_list_spec in Hrun as (evs & Htr & Hcr & Hnc & _).
    exists (CallUsers gUsers None :: evs). simpl in *.
    split; [by rewrite Htr, <- app_assoc|]. right.
    exists gUsers, None, evs, []. rewrite app_nil_r.
    repeat split; try done; constructor.
  - pose proof Hrun as Hrun'.
    apply addIds_list_spec in Hrun as (evs & Htr & Hcr & Hnc & _).
    apply addIds_list_success_calls in Hrun' as (evs' & Htr' & _ & Hok).
    assert (evs' = evs) as -> by (rewrite Htr in Htr'; by apply app_inv_head in Htr').
    destruct (applyTeamChanges_calls client (ParseInt (d_Id d)) out s1)
      as (answers & Hap & _).
    exists (CallUsers gUsers None :: evs ++
            zip_with (issued (ParseInt (d_Id d))) out answers).
    split.
    { rewrite Hap, Htr. simpl. by rewrite <- !app_assoc. }
    right. eexists gUsers, None, evs, _. split; [done|]. split; [done|].
    split; [apply zip_with_issued_targets|]. split; [done|]. split; [done|].
    intros Hex. apply Exists_exists in Hex as (ev & Hin & Hfail).
    rewrite Forall_forall in Hok. by apply Hok in Hin.
Qed.

(** X13: the calls of [UpdateTeamMembers] come in three phases. It calls
    nothing, or it calls [Users] once, then [createUser] only, then
    [AddTeamMember] and [RemoveMemberFromTeam] only, these on the team
    whose id is read from [d.Id()]. With [create_users] off it never calls
    [createUser]; and when [Users] or a [createUser] call has failed, no
    member is added or removed. *)
Theorem UpdateTeamMembers_phases (d : ResourceData) (s : Remote W) :
  ∃ evs,
    trace (UpdateTeamMembers range ParseInt client createUser d s).2 = trace s ++ evs ∧
    (evs = [] ∨
     ∃ gUsers uerr creates applies,
       evs = CallUsers gUsers uerr :: creates ++ applies ∧
       Forall is_CallCreateUser creates ∧
       Forall (targets (ParseInt (d_Id d))) applies ∧
       (create_users d = false → creates = []) ∧
       (uerr ≠ None → creates = [] ∧ applies = []) ∧
       (Exists create_failed creates → applies = [])).
Proof. apply UpdateTeamMembers_trace_shape. Qed.

Lemma teamChanges_keys state config stateUsers configUsers c :
  NoDup state → NoDup config →
  member_set state stateUsers → member_set config configUsers →
  c ∈ teamChanges range stateUsers configUsers ↔
  (∃ k, c = change_of Add k ∧ k ∈ config ∧ k ∉ state) ∨
  (∃ k, c = change_of Remove k ∧ k ∈ state ∧ k ∉ config).
Proof.
  intros Hnds Hndc Hs Hc.
  rewrite (teamChanges_member_sets range range_perm _ _ _ _ Hnds Hndc Hs Hc).
  rewrite elem_of_app, !list_elem_of_fmap.
  split; intros [(k & -> & Hk)|(k & -> & Hk)]; [left|right|left|right];
    exists k; (split; [done|]); by apply list_elem_of_difference.
Qed.

(** X14: with [create_users] off, when some user to add or to remove is
    not in the listing of [Users], [UpdateTeamMembers] returns the error
    that names such a user and has called [Users] alone: no member is
    added or removed, not even those the listing has. *)
Theorem UpdateTeamMembers_unknown_user_applies_nothing
    (d : ResourceData) (s : Remote W) gUsers w :
  NoDup (users_state d) → NoDup (users_config d) →
  gapi.Users client (world s) = ((gUsers, None), w) →
  create_users d = false →
  (∃ k, (k ∈ users_config d ∧ k ∉ users_state d ∨
         k ∈ users_state d ∧ k ∉ users_config d) ∧
        build_gUserMap gUsers !! k = None) →
  ∃ k, (k ∈ users_config d ∧ k ∉ users_state d ∨
        k ∈ users_state d ∧ k ∉ users_config d) ∧
       build_gUserMap gUsers !! k = None ∧
       UpdateTeamMembers range ParseInt client createUser d s =
         (Some (unknown_user_error k),
          {| world := w; trace := trace s ++ [CallUsers gUsers None] |}).
Proof.
  intros Hnds Hndc HU Hcreate (k0 & Hk0 & Hunknown).
  destruct (collectTeamUsers_NoDup d Hnds Hndc) as (ms & mc & Heq & Hs & Hc).
  unfold UpdateTeamMembers. rewrite Heq. unfold bind.
  rewrite (addIdsToTeamChanges_list _ _ _ _ _ _ _ HU), Hcreate.
  set (changes := teamChanges range ms mc).
  set (s1 := {| world := w; trace := trace s ++ [CallUsers gUsers None] |}).
  pose proof (addIds_list_no_create createUser (build_gUserMap gUsers) changes [] s1) as Hs1.
  destruct (addIds_list createUser (build_gUserMap gUsers) false changes [] s1)
    as [[out err] s'] eqn:Hrun.
  simpl in Hs1. subst s'.
  apply addIds_list_spec in Hrun as (evs & _ & _ & Hnone & Hres).
  rewrite (Hnone eq_refl) in Hres. clear Hnone evs.
  destruct err as [e|].
  - destruct Hres as (-> & pre & c & post & Hsplit & Hc' & -> & _).
    assert (c ∈ changes) as Hin by (rewrite Hsplit, elem_of_app; right; left).
    apply (teamChanges_keys _ _ _ _ _ Hnds Hndc Hs Hc) in Hin.
    destruct Hin as [(k & -> & Hk)|(k & -> & Hk)]; exists k; simpl in *; tauto.
  - exfalso. destruct Hres as (res & _ & Hres).
    assert (∃ c, c ∈ changes ∧ Email (User c) = k0) as (c & Hin & Hkey).
    { destruct Hk0 as [Hk0|Hk0].
      - exists (change_of Add k0). split; [|done].
        apply (teamChanges_keys _ _ _ _ _ Hnds Hndc Hs Hc). left. by exists k0.
      - exists (change_of Remove k0). split; [|done].
        apply (teamChanges_keys _ _ _ _ _ Hnds Hndc Hs Hc). right. by exists k0. }
    apply list_elem_of_lookup in Hin as [i Hi].
    destruct (Forall2_lookup_l _ _ _ _ _ Hres Hi) as (c' & _ & id & _ & Hid).
    rewrite Hkey in Hid. destruct Hid as [Hid|[_ Hev]]; [congruence|].
    by apply elem_of_nil in Hev.
Qed.

(** X15: when the listing of [Users] has every user to add or to remove
    and [UpdateTeamMembers] returns nil, the calls it made after [Users]
    are, in some order, one [AddTeamMember] for every desired user that is
    not a previous one and one [RemoveMemberFromTeam] for every previous
    user that is not desired, each with the id listed for the user: no
    user is made, and nothing is called for a user of both lists. *)
Theorem UpdateTeamMembers_success_calls
    (d : ResourceData) (s : Remote W) gUsers w :
  NoDup (users_state d) → NoDup (users_config d) →
  gapi.Users client (world s) = ((gUsers, None), w) →
  (∀ k, k ∈ users_config d ∧ k ∉ users_state d ∨
        k ∈ users_state d ∧ k ∉ users_config d →
        is_Some (build_gUserMap gUsers !! k)) →
  (UpdateTeamMembers range ParseInt client createUser d s).1 = None →
  ∃ changes answers,
    changes ≡ₚ
      (resolve_known (build_gUserMap gUsers) ∘ change_of Add <$>
         list_difference (users_config d) (users_state d)) ++
      (resolve_known (build_gUserMap gUsers) ∘ change_of Remove <$>
         list_difference (users_state d) (users_config d)) ∧
    length answers = length changes ∧
    trace (UpdateTeamMembers range ParseInt client createUser d s).2 =
      trace s ++ CallUsers gUsers None ::
        zip_with (issued (ParseInt (d_Id d))) changes answers.
Proof.
  intros Hnds Hndc HU Hknown.
  destruct (collectTeamUsers_NoDup d Hnds Hndc) as (ms & mc & Heq & Hs & Hc).
  unfold UpdateTeamMembers. rewrite Heq. unfold bind.
  set (changes := teamChanges range ms mc).
  assert (Forall (λ c, is_Some (build_gUserMap gUsers !! Email (User c))) changes) as Hall.
  { apply Forall_forall. intros c Hin.
    apply (teamChanges_keys _ _ _ _ _ Hnds Hndc Hs Hc) in Hin.
    destruct Hin as [(k & -> & Hk)|(k & -> & Hk)]; apply Hknown; simpl; tauto. }
  rewrite (addIdsToTeamChanges_list _ _ _ _ _ _ _ HU).
  rewrite addIds_list_all_known by done. rewrite app_nil_l.
  intros Hnil.
  destruct (applyTeamChanges_calls client (ParseInt (d_Id d))
              (resolve_known (build_gUserMap gUsers) <$> changes)
              {| world := w; trace := trace s ++ [CallUsers gUsers None] |})
    as (answers & Htr & Hlen).
  exists (resolve_known (build_gUserMap gUsers) <$> changes), answers.
  split.
  { unfold changes.
    rewrite (teamChanges_member_sets range range_perm _ _ _ _ Hnds Hndc Hs Hc).
    by rewrite fmap_app, <- !list_fmap_compose. }
  split; [by apply Hlen|].
  rewrite Htr. simpl. by rewrite <- app_assoc.
Qed.

End PipelineMore.

(** ** The resource functions *)

Lemma foldl_append_filter {A B} (P : A → Prop) `{!∀ a, Decision (P a)} (f : A → B) :
  ∀ (l : list A) (acc : list B),
  foldl (λ acc a, if bool_decide (P a) then acc ++ [f a] else acc) acc l =
    acc ++ (f <$> filter P l).
Proof.
  induction l as [|a l IH]; intros acc; simpl; [by rewrite app_nil_r|].
  rewrite IH, filter_cons. case_bool_decide.
  - rewrite decide_True by done. by rewrite <- app_assoc.
  - by rewrite decide_False by done.
Qed.

Section ResourceFacts.

Variable range : gmap string TeamUser → list (string * TeamUser).
Variable ParseInt : string → Z.
Variable FormatInt : Z → string.
Context {W : Type}.
Variable client : gapi.Client W.
Variable teams : gapi_teams.Client W.
Variable createUser : string → W → (Z * option error) * W.
Variable Set_admin_user : string → TeamResourceData → TeamResourceData.
Variable Set_create_users : string → TeamResourceData → TeamResourceData.

Lemma lift_run {A} (m : M W A) (s : Session W) :
  lift m s =
    ((m {| world := remote s; trace := [] |}).1,
     {| remote := world (m {| world := remote s; trace := [] |}).2;
        log := log s ++ (Membership <$> trace (m {| world := remote s; trace := [] |}).2) |}).
Proof. unfold lift. by destruct (m {| world := remote s; trace := [] |}). Qed.

(** X16: when [AddTeam] fails, [CreateTeam] sets no id and calls nothing
    else. It returns the error of [AddTeam], except for [409 Conflict],
    which it replaces by a message that names the team. *)
Theorem CreateTeam_AddTeam_error
    (d : TeamResourceData) (s : Session W) teamID e w :
  gapi_teams.AddTeam teams (name d) (email d) (remote s) = ((teamID, Some e), w) →
  CreateTeam range ParseInt FormatInt client teams createUser d s =
    ((d, Some (if bool_decide (e = "409 Conflict")
               then team_exists_error FormatInt (name d) teamID else e)),
     {| remote := w;
        log := log s ++ [CallAddTeam (name d) (email d) teamID (Some e)] |}) ∧
  mentions (name d) (team_exists_error FormatInt (name d) teamID) = true.
Proof.
  intros HA. split; [|apply mentions_append].
  unfold CreateTeam, tbind, call_AddTeam. rewrite HA. by case_bool_decide.
Qed.

(** X17: the users are checked after the team is made: when [AddTeam]
    succeeds and a user is listed twice, [CreateTeam] returns the error
    for the duplicate with the id of the new team set, and has called
    [AddTeam] alone; the team stays. *)
Theorem CreateTeam_duplicate_user_keeps_team
    (d : TeamResourceData) (s : Session W) teamID w :
  gapi_teams.AddTeam teams (name d) (email d) (remote s) = ((teamID, None), w) →
  ¬ NoDup (users_state (rd d)) ∨ ¬ NoDup (users_config (rd d)) →
  ∃ k, (k ∈ users_state (rd d) ∨ k ∈ users_config (rd d)) ∧
    CreateTeam range ParseInt FormatInt client teams createUser d s =
      ((SetId (FormatInt teamID) d, Some (duplicate_user_error k)),
       {| remote := w;
          log := log s ++ [CallAddTeam (name d) (email d) teamID None] |}).
Proof.
  intros HA Hdup.
  destruct (collectTeamUsers_duplicate (rd (SetId (FormatInt teamID) d)) Hdup)
    as (k & Hk & Heq).
  exists k. split; [done|].
  unfold CreateTeam, tbind, call_AddTeam. rewrite HA. rewrite lift_run.
  unfold UpdateTeamMembers. rewrite Heq. simpl. by rewrite app_nil_r.
Qed.

(** X18: when [AddTeam] succeeds and the id it returns reads back from
    its decimal form, every member [CreateTeam] adds or removes is added to
    or removed from the team just made, and these calls come after
    [AddTeam]. *)
Theorem CreateTeam_members_of_new_team
    (d : TeamResourceData) (s : Session W) teamID w :
  gapi_teams.AddTeam teams (name d) (email d) (remote s) = ((teamID, None), w) →
  ParseInt (FormatInt teamID) = teamID →
  ∃ evs,
    log (CreateTeam range ParseInt FormatInt client teams createUser d s).2 =
      log s ++ CallAddTeam (name d) (email d) teamID None :: (Membership <$> evs) ∧
    (CreateTeam range ParseInt FormatInt client teams createUser d s).1.1 =
      SetId (FormatInt teamID) d ∧
    Forall (λ ev, match ev with
                  | CallAddTeamMember t _ _ | CallRemoveMemberFromTeam t _ _ => t = teamID
                  | _ => True
                  end) evs.
Proof.
  intros HA Hround.
  unfold CreateTeam, tbind, call_AddTeam. rewrite HA. rewrite lift_run. simpl.
  set (d' := {| d_Id := FormatInt teamID; users_state := users_state (rd d);
                users_config := users_config (rd d);
                create_users := create_users (rd d) |}).
  destruct (UpdateTeamMembers_trace_shape range ParseInt client createUser d'
              {| world := w; trace := [] |}) as (evs & Htr & Hshape).
  simpl in Htr. exists evs. rewrite Htr, <- app_assoc. split; [done|]. split; [done|].
  destruct Hshape as [->|(gUsers & uerr & creates & applies & -> & Hcr & Hap & _)];
    [constructor|].
  constructor; [done|]. apply Forall_app. split.
  - eapply Forall_impl; [exact Hcr|]. by intros [].
  - eapply Forall_impl; [exact Hap|]. intros ev. simpl. rewrite Hround. by destruct ev.
Qed.

(** X19: [UpdateTeam] calls the [UpdateTeam] of the client exactly when
    the name or the email has changed, and before any call on the members;
    when that call fails it returns its error and calls nothing else. *)
Theorem UpdateTeam_renames_first (d : TeamResourceData) (s : Session W) :
  ∃ evs,
    log (UpdateTeam range ParseInt client teams createUser d s).2 =
      log s ++ evs ∧
    if HasChange_name d || HasChange_email d
    then ∃ err rest,
           evs = CallUpdateTeam (ParseInt (d_Id (rd d))) (name d) (email d) err ::
                 (Membership <$> rest) ∧
           (err ≠ None →
            rest = [] ∧
            (UpdateTeam range ParseInt client teams createUser d s).1 = err)
    else ∃ rest, evs = Membership <$> rest.
Proof.
  unfold UpdateTeam, tbind. destruct (HasChange_name d || HasChange_email d).
  - unfold call_UpdateTeam.
    destruct (gapi_teams.UpdateTeam teams (ParseInt (d_Id (rd d))) (name d) (email d)
                (remote s)) as [[e|] w].
    + eexists. split; [done|]. exists (Some e), []. done.
    + rewrite lift_run. simpl. eexists. split; [by rewrite <- app_assoc|].
      eexists None, _. done.
  - unfold tret. rewrite lift_run. simpl. eexists. split; [done|]. by eexists.
Qed.

(** X20: when the client answers [404 Not Found] for the team,
    [ExistsTeam] returns false without an error and [ReadTeam] returns nil
    after it has set the id to the empty string; [ReadTeam] then writes
    neither the name nor the users and does not ask for the members. *)
Theorem ReadTeam_and_ExistsTeam_not_found
    (d : TeamResourceData) (s : Session W) resp w :
  gapi_teams.Team teams (ParseInt (d_Id (rd d))) (remote s) =
    ((resp, Some "404 Not Found"), w) →
  let s' := {| remote := w;
               log := log s ++ [CallTeam (ParseInt (d_Id (rd d))) resp
                                  (Some "404 Not Found")] |} in
  ExistsTeam ParseInt teams d s = ((false, None), s') ∧
  ReadTeam ParseInt teams d s = ((SetId "" d, None), s') ∧
  Set_name (SetId "" d) = Set_name d ∧ Set_users (SetId "" d) = Set_users d.
Proof.
  intros HT s'. unfold ExistsTeam, ReadTeam, tbind, call_Team. rewrite HT. done.
Qed.

(** X21: when the client has the team, [ReadTeam] writes its name and
    then asks for the members. If that fails it returns the error with the
    name written and the users not; otherwise it writes as users the
    emails of the members, in their order, but for those whose login is
    the value of [admin_user]. *)
Theorem ReadTeam_found
    (d : TeamResourceData) (s : Session W) resp w teamUsers merr w' :
  gapi_teams.Team teams (ParseInt (d_Id (rd d))) (remote s) = ((resp, None), w) →
  gapi_teams.TeamMembers teams (ParseInt (d_Id (rd d))) w = ((teamUsers, merr), w') →
  ReadTeam ParseInt teams d s =
    ((match merr with
      | Some e => Set_name_to (gapi_types.Name resp) d
      | None =>
          Set_users_to
            (gapi_types.Email <$>
               filter (λ u, Some (gapi_types.Login u) ≠ admin_user d) teamUsers)
            (Set_name_to (gapi_types.Name resp) d)
      end, merr),
     {| remote := w';
        log := log s ++ [CallTeam (ParseInt (d_Id (rd d))) resp None;
                         CallTeamMembers (ParseInt (d_Id (rd d))) teamUsers merr] |}).
Proof.
  intros HT HM. unfold ReadTeam, tbind, call_Team. rewrite HT.
  unfold ReadTeamUsers, tbind, call_TeamMembers. simpl. rewrite HM.
  rewrite <- app_assoc. destruct merr as [e|]; [done|].
  unfold tret. simpl.
  by rewrite (foldl_append_filter (λ u, Some (gapi_types.Login u) ≠ admin_user d)
                gapi_types.Email teamUsers []).
Qed.

(** X22: [ImportTeam] of a team the client does not have fails before
    anything is read or written: it returns no resource and an error made
    from the error of the client. For [404 Not Found] there is no such
    error, [ExistsTeam] having turned it into nil, and the message ends in
    [%!s(<nil>)]. *)
Theorem ImportTeam_team_error
    (d : TeamResourceData) (s : Session W) resp e w :
  gapi_teams.Team teams (ParseInt (d_Id (rd d))) (remote s) = ((resp, Some e), w) →
  ImportTeam ParseInt teams Set_admin_user Set_create_users d s =
    ((d, [],
      Some (if bool_decide (e = "404 Not Found")
            then "Error: Unable to import Grafana Team: %!s(<nil>)."
            else "Error: Unable to import Grafana Team: " +:+ e +:+ ".")),
     {| remote := w;
        log := log s ++ [CallTeam (ParseInt (d_Id (rd d))) resp (Some e)] |}).
Proof.
  intros HT. unfold ImportTeam, ExistsTeam, tbind, call_Team. rewrite HT.
  by case_bool_decide.
Qed.

End ResourceFacts.

(** ** The further properties at concrete inputs *)

Lemma collectTeamUsers_order_irrelevant_witness :
  collectTeamUsers SimMore.d1_reordered = collectTeamUsers Sim.d1 ∧
  ∃ stateUsers configUsers, collectTeamUsers Sim.d1 = (stateUsers, configUsers, None).
Proof.
  apply (collectTeamUsers_order_irrelevant Sim.d1 SimMore.d1_reordered).
  - compute_done.
  - compute_done.
  - apply perm_swap.
  - apply perm_swap.
Defined.

Lemma teamChanges_patches_previous_into_desired_witness :
  ∃ stateUsers configUsers,
    collectTeamUsers Sim.d1 = (stateUsers, configUsers, None) ∧
    patch (list_to_set (users_state Sim.d1))
      (teamChanges Sim.range_rev stateUsers configUsers) =
      list_to_set (users_config Sim.d1).
Proof.
  apply (teamChanges_patches_previous_into_desired Sim.range_rev Sim_range_rev_perm Sim.d1).
  - compute_done.
  - compute_done.
Defined.

Lemma teamChanges_exchange_witness :
  ∃ stateUsers configUsers,
    collectTeamUsers Sim.d1 = (stateUsers, configUsers, None) ∧
    collectTeamUsers {| d_Id := d_Id Sim.d1; users_state := users_config Sim.d1;
                        users_config := users_state Sim.d1;
                        create_users := create_users Sim.d1 |} =
      (configUsers, stateUsers, None) ∧
    teamChanges Sim.range configUsers stateUsers ≡ₚ
      retype opposite <$> teamChanges Sim.range stateUsers configUsers.
Proof.
  apply (teamChanges_exchange Sim.range Sim_range_perm Sim.d1).
  - compute_done.
  - compute_done.
Defined.

Lemma addIdsToTeamChanges_all_known_witness :
  addIdsToTeamChanges Sim.client Sim.createUser Sim.d_u1 Sim.changes_u1
      (Sim.start Sim.w0) =
    ((resolve_known (build_gUserMap (Sim.users Sim.w0)) <$> Sim.changes_u1, None),
     {| world := Sim.w0;
        trace := trace (Sim.start Sim.w0) ++ [CallUsers (Sim.users Sim.w0) None] |}).
Proof.
  apply (addIdsToTeamChanges_all_known Sim.client Sim.createUser Sim.d_u1
           Sim.changes_u1 (Sim.start Sim.w0) (Sim.users Sim.w0) Sim.w0).
  - reflexivity.
  - repeat constructor. vm_compute. by eexists.
Defined.

Lemma addIdsToTeamChanges_creates_in_order_witness :
  ∃ answers : list (Z * option error),
    trace (addIdsToTeamChanges Sim.client Sim.createUser Sim.d1
             Sim.changes_u1_u2_u4 (Sim.start Sim.w0)).2 =
      trace (Sim.start Sim.w0) ++ CallUsers (Sim.users Sim.w0) None ::
        zip_with created
          (unknown_keys (build_gUserMap (Sim.users Sim.w0)) Sim.changes_u1_u2_u4)
          answers ∧
    (length answers ≤
     length (unknown_keys (build_gUserMap (Sim.users Sim.w0)) Sim.changes_u1_u2_u4))%nat ∧
    match (addIdsToTeamChanges Sim.client Sim.createUser Sim.d1
             Sim.changes_u1_u2_u4 (Sim.start Sim.w0)).1.2 with
    | None =>
        length answers =
          length (unknown_keys (build_gUserMap (Sim.users Sim.w0)) Sim.changes_u1_u2_u4) ∧
        Forall (λ a, a.2 = None) answers
    | Some e => ∃ before id, answers = before ++ [(id, Some e)] ∧
                             Forall (λ a, a.2 = None) before
    end.
Proof.
  apply (addIdsToTeamChanges_creates_in_order Sim.client Sim.createUser Sim.d1
           Sim.changes_u1_u2_u4 (Sim.start Sim.w0) (Sim.users Sim.w0) Sim.w0).
  - reflexivity.
  - reflexivity.
Defined.


Lemma UpdateTeamMembers_Users_error_witness :
  UpdateTeamMembers Sim.range Sim.ParseInt SimMore.client_down Sim.createUser
      Sim.d1 (Sim.start Sim.w0) =
    (Some "503 Service Unavailable",
     {| world := Sim.w0;
        trace := trace (Sim.start Sim.w0) ++
                 [CallUsers [] (Some "503 Service Unavailable")] |}).
Proof.
  apply (UpdateTeamMembers_Users_error Sim.range Sim.ParseInt SimMore.client_down
           Sim.createUser Sim.d1 (Sim.start Sim.w0) [] "503 Service Unavailable" Sim.w0).
  - compute_done.
  - compute_done.
  - reflexivity.
Defined.

Lemma UpdateTeamMembers_unknown_user_applies_nothing_witness :
  ∃ k, (k ∈ users_config Sim.d1_no_create ∧ k ∉ users_state Sim.d1_no_create ∨
        k ∈ users_state Sim.d1_no_create ∧ k ∉ users_config Sim.d1_no_create) ∧
       build_gUserMap (Sim.users Sim.w0) !! k = None ∧
       UpdateTeamMembers Sim.range_rev Sim.ParseInt Sim.client Sim.createUser
           Sim.d1_no_create (Sim.start Sim.w0) =
         (Some (unknown_user_error k),
          {| world := Sim.w0;
             trace := trace (Sim.start Sim.w0) ++ [CallUsers (Sim.users Sim.w0) None] |}).
Proof.
  apply (UpdateTeamMembers_unknown_user_applies_nothing Sim.range_rev Sim_range_rev_perm
           Sim.ParseInt Sim.client Sim.createUser Sim.d1_no_create (Sim.start Sim.w0)
           (Sim.users Sim.w0) Sim.w0).
  - compute_done.
  - compute_done.
  - reflexivity.
  - reflexivity.
  - exists "u2@x.com". split; [left; split; compute_done|]. vm_compute. reflexivity.
Defined.

Lemma UpdateTeamMembers_success_calls_witness :
  ∃ changes answers,
    changes ≡ₚ
      (resolve_known (build_gUserMap (Sim.users Sim.w0)) ∘ change_of Add <$>
         list_difference (users_config Sim.d_u1) (users_state Sim.d_u1)) ++
      (resolve_known (build_gUserMap (Sim.users Sim.w0)) ∘ change_of Remove <$>
         list_difference (users_state Sim.d_u1) (users_config Sim.d_u1)) ∧
    length answers = length changes ∧
    trace (UpdateTeamMembers Sim.range Sim.ParseInt Sim.client Sim.createUser
             Sim.d_u1 (Sim.start Sim.w0)).2 =
      trace (Sim.start Sim.w0) ++ CallUsers (Sim.users Sim.w0) None ::
        zip_with (issued (Sim.ParseInt (d_Id Sim.d_u1))) changes answers.
Proof.
  apply (UpdateTeamMembers_success_calls Sim.range Sim_range_perm Sim.ParseInt
           Sim.client Sim.createUser Sim.d_u1 (Sim.start Sim.w0)
           (Sim.users Sim.w0) Sim.w0).
  - compute_done.
  - compute_done.
  - reflexivity.
  - intros k [[Hk _]|[Hk _]].
    + apply list_elem_of_singleton in Hk as ->. vm_compute. by eexists.
    + by apply elem_of_nil in Hk.
  - reflexivity.
Defined.

Lemma CreateTeam_AddTeam_error_witness :
  CreateTeam Sim.range Sim.ParseInt SimTeam.FormatInt SimTeam.client
      SimTeam.teams_client SimTeam.createUser (SimTeam.resource Sim.d_u1 "ops")
      (SimTeam.start SimTeam.w0) =
    ((SimTeam.resource Sim.d_u1 "ops",
      Some (if bool_decide ("409 Conflict" = "409 Conflict")
            then team_exists_error SimTeam.FormatInt
                   (name (SimTeam.resource Sim.d_u1 "ops")) 0
            else "409 Conflict")),
     {| remote := SimTeam.w0;
        log := log (SimTeam.start SimTeam.w0) ++
               [CallAddTeam (name (SimTeam.resource Sim.d_u1 "ops"))
                  (email (SimTeam.resource Sim.d_u1 "ops")) 0 (Some "409 Conflict")] |}) ∧
  mentions (name (SimTeam.resource Sim.d_u1 "ops"))
    (team_exists_error SimTeam.FormatInt (name (SimTeam.resource Sim.d_u1 "ops")) 0) = true.
Proof.
  apply (CreateTeam_AddTeam_error Sim.range Sim.ParseInt SimTeam.FormatInt SimTeam.client
           SimTeam.teams_client SimTeam.createUser (SimTeam.resource Sim.d_u1 "ops")
           (SimTeam.start SimTeam.w0) 0 "409 Conflict" SimTeam.w0).
  reflexivity.
Defined.

Lemma CreateTeam_duplicate_user_keeps_team_witness :
  ∃ k, (k ∈ users_state (rd (SimTeam.resource Sim.d_dup_config "dev")) ∨
        k ∈ users_config (rd (SimTeam.resource Sim.d_dup_config "dev"))) ∧
    CreateTeam Sim.range Sim.ParseInt SimTeam.FormatInt SimTeam.client
        SimTeam.teams_client SimTeam.createUser
        (SimTeam.resource Sim.d_dup_config "dev") (SimTeam.start SimTeam.w0) =
      ((SetId (SimTeam.FormatInt 8) (SimTeam.resource Sim.d_dup_config "dev"),
        Some (duplicate_user_error k)),
       {| remote := (SimTeam.AddTeam "dev" "" SimTeam.w0).2;
          log := log (SimTeam.start SimTeam.w0) ++
                 [CallAddTeam (name (SimTeam.resource Sim.d_dup_config "dev"))
                    (email (SimTeam.resource Sim.d_dup_config "dev")) 8 None] |}).
Proof.
  apply (CreateTeam_duplicate_user_keeps_team Sim.range Sim.ParseInt SimTeam.FormatInt
           SimTeam.client SimTeam.teams_client SimTeam.createUser
           (SimTeam.resource Sim.d_dup_config "dev") (SimTeam.start SimTeam.w0) 8
           (SimTeam.AddTeam "dev" "" SimTeam.w0).2).
  - reflexivity.
  - right. intros Hnd. apply NoDup_cons in Hnd as [Hnotin _]. apply Hnotin. left.
Defined.

Lemma CreateTeam_members_of_new_team_witness :
  ∃ evs,
    log (CreateTeam Sim.range Sim.ParseInt SimTeam.FormatInt SimTeam.client
           SimTeam.teams_client SimTeam.createUser (SimTeam.resource Sim.d_u1 "dev")
           (SimTeam.start SimTeam.w0)).2 =
      log (SimTeam.start SimTeam.w0) ++
      CallAddTeam (name (SimTeam.resource Sim.d_u1 "dev"))
        (email (SimTeam.resource Sim.d_u1 "dev")) 8 None :: (Membership <$> evs) ∧
    (CreateTeam Sim.range Sim.ParseInt SimTeam.FormatInt SimTeam.client
       SimTeam.teams_client SimTeam.createUser (SimTeam.resource Sim.d_u1 "dev")
       (SimTeam.start SimTeam.w0)).1.1 =
      SetId (SimTeam.FormatInt 8) (SimTeam.resource Sim.d_u1 "dev") ∧
    Forall (λ ev, match ev with
                  | CallAddTeamMember t _ _ | CallRemoveMemberFromTeam t _ _ => t = 8
                  | _ => True
                  end) evs.
Proof.
  apply (CreateTeam_members_of_new_team Sim.range Sim.ParseInt SimTeam.FormatInt
           SimTeam.client SimTeam.teams_client SimTeam.createUser
           (SimTeam.resource Sim.d_u1 "dev") (SimTeam.start SimTeam.w0) 8
           (SimTeam.AddTeam "dev" "" SimTeam.w0).2).
  - reflexivity.
  - reflexivity.
Defined.

Lemma ReadTeam_and_ExistsTeam_not_found_witness :
  let s' := {| remote := SimTeam.w0;
               log := log (SimTeam.start SimTeam.w0) ++
                      [CallTeam (Sim.ParseInt (d_Id (rd SimMore.d_gone)))
                         {| gapi_types.Name := "" |} (Some "404 Not Found")] |} in
  ExistsTeam Sim.ParseInt SimTeam.teams_client SimMore.d_gone
      (SimTeam.start SimTeam.w0) = ((false, None), s') ∧
  ReadTeam Sim.ParseInt SimTeam.teams_client SimMore.d_gone
      (SimTeam.start SimTeam.w0) = ((SetId "" SimMore.d_gone, None), s') ∧
  Set_name (SetId "" SimMore.d_gone) = Set_name SimMore.d_gone ∧
  Set_users (SetId "" SimMore.d_gone) = Set_users SimMore.d_gone.
Proof.
  apply (ReadTeam_and_ExistsTeam_not_found Sim.ParseInt SimTeam.teams_client
           SimMore.d_gone (SimTeam.start SimTeam.w0) {| gapi_types.Name := "" |}
           SimTeam.w0).
  reflexivity.
Defined.

Lemma ReadTeam_found_witness :
  ReadTeam Sim.ParseInt SimTeam.teams_client (SimTeam.resource Sim.d_u1 "ops")
      (SimTeam.start SimTeam.w0) =
    ((match @None error with
      | Some e => Set_name_to (gapi_types.Name {| gapi_types.Name := "ops" |})
                    (SimTeam.resource Sim.d_u1 "ops")
      | None =>
          Set_users_to
            (gapi_types.Email <$>
               filter (λ u, Some (gapi_types.Login u) ≠
                            admin_user (SimTeam.resource Sim.d_u1 "ops"))
                 [{| gapi_types.Login := "u1@x.com"; gapi_types.Email := "u1@x.com" |}])
            (Set_name_to (gapi_types.Name {| gapi_types.Name := "ops" |})
               (SimTeam.resource Sim.d_u1 "ops"))
      end, None),
     {| remote := SimTeam.w0;
        log := log (SimTeam.start SimTeam.w0) ++
               [CallTeam (Sim.ParseInt (d_Id (rd (SimTeam.resource Sim.d_u1 "ops"))))
                  {| gapi_types.Name := "ops" |} None;
                CallTeamMembers
                  (Sim.ParseInt (d_Id (rd (SimTeam.resource Sim.d_u1 "ops"))))
                  [{| gapi_types.Login := "u1@x.com"; gapi_types.Email := "u1@x.com" |}]
                  None] |}).
Proof.
  apply (ReadTeam_found Sim.ParseInt SimTeam.teams_client
           (SimTeam.resource Sim.d_u1 "ops") (SimTeam.start SimTeam.w0)
           {| gapi_types.Name := "ops" |} SimTeam.w0
           [{| gapi_types.Login := "u1@x.com"; gapi_types.Email := "u1@x.com" |}]
           None SimTeam.w0).
  - reflexivity.
  - reflexivity.
Defined.

Lemma ImportTeam_team_error_witness :
  ImportTeam Sim.ParseInt SimTeam.teams_client (λ _ d, d) (λ _ d, d) SimMore.d_gone
      (SimTeam.start SimTeam.w0) =
    ((SimMore.d_gone, [],
      Some (if bool_decide ("404 Not Found" = "404 Not Found")
            then "Error: Unable to import Grafana Team: %!s(<nil>)."
            else "Error: Unable to import Grafana Team: " +:+ "404 Not Found" +:+ ".")),
     {| remote := SimTeam.w0;
        log := log (SimTeam.start SimTeam.w0) ++
               [CallTeam (Sim.ParseInt (d_Id (rd SimMore.d_gone)))
                  {| gapi_types.Name := "" |} (Some "404 Not Found")] |}).
Proof.
  apply (ImportTeam_team_error Sim.ParseInt SimTeam.teams_client (λ _ d, d) (λ _ d, d)
           SimMore.d_gone (SimTeam.start SimTeam.w0) {| gapi_types.Name := "" |}
           "404 Not Found" SimTeam.w0).
  reflexivity.
Defined.

Lemma Update_never_computed_and_applied_as_Add_witness :
  let pre := [{| Type_ := Add; User := {| Id := 100; Email := "u1@x.com" |} |}] in
  let u := {| Id := 100; Email := "u1@x.com" |} in
  let post := [{| Type_ := Remove; User := {| Id := 100; Email := "u1@x.com" |} |}] in
  serve Sim.client 7 pre (world (Sim.start Sim.w0)) = ([Some "409 Conflict"], Sim.w0) ∧
  Forall tolerated [Some "409 Conflict"] ∧
  applyTeamChanges Sim.client 7 (pre ++ {| Type_ := Update; User := u |} :: post)
      (Sim.start Sim.w0) =
    let '(err, w2) := gapi.AddTeamMember Sim.client 7 (Id u) Sim.w0 in
    let s2 := {| world := w2;
                 trace := trace (Sim.start Sim.w0) ++
                          zip_with (issued 7) pre [Some "409 Conflict"] ++
                          [CallAddTeamMember 7 (Id u) err] |} in
    match err with
    | Some e =>
        if bool_decide (e ≠ "409 Conflict") then (Some e, s2)
        else applyTeamChanges Sim.client 7 post s2
    | None => applyTeamChanges Sim.client 7 post s2
    end.
Proof.
  intros pre u post.
  assert (serve Sim.client 7 pre (world (Sim.start Sim.w0)) =
          ([Some "409 Conflict"], Sim.w0)) as Hserve by reflexivity.
  assert (Forall tolerated [Some "409 Conflict"]) as Htol
    by (repeat constructor; by right).
  split; [exact Hserve|]. split; [exact Htol|].
  destruct (Update_never_computed_and_applied_as_Add Sim.range Sim.client)
    as (_ & _ & _ & Hreach).
  apply (Hreach Update 7 pre u post (Sim.start Sim.w0) [Some "409 Conflict"] Sim.w0);
    [by left|exact Hserve|exact Htol].
Defined.
